(** * VoiceChatUtilities: the sequential batch runner and the action dispatcher

    A shallow embedding of the plugin's two source files.  The second file
    (the one with [getVoiceStates] and the [includeSelfInActions] setting) is
    embedded in [Module Plugin]; the first one, [index.tsx], in
    [Module IndexTsx].  [runSequential] is the same text in both files and
    is embedded once.

    The chat client the plugin runs in (its stores, its REST client, its
    timers) is not part of the repository: it is the [Host] record below and
    the modules named after the client's stores and action creators.  *)

From stdpp Require Import base numbers list strings gmap.
From Stdlib Require Import PrimFloat.

Local Open Scope Z_scope.

(** ** JavaScript values and promises *)

Inductive JsValue : Type :=
| JNull
| JBool (b : bool)
| JString (s : string).

(** A thrown or rejected value. *)
Definition JsError : Type := string.

(** How a promise ends: fulfilled with a value, rejected with an error, or
    never settled. *)
Inductive Settled (T : Type) : Type :=
| Fulfilled (v : T)
| Rejected (e : JsError)
| Pending.

Arguments Fulfilled {T} v.
Arguments Rejected {T} e.
Arguments Pending {T}.

(** [a % b === 0] for integer-valued numbers: [%] takes the sign of the
    dividend, and [a % 0] is [NaN], which is not [=== 0]. *)
Definition rem_is_zero (a b : Z) : bool :=
  if b =? 0 then false else Z.rem a b =? 0.

(** ** Settings ([definePluginSettings]) *)

(** [waitSeconds] is a JavaScript number, a binary64 float, and
    [waitSeconds * 1000] below is the binary64 product. *)

Record Settings : Type := {
  waitAfter : Z;
  waitSeconds : float;
  includeSelfInActions : bool
}.

Definition default_settings : Settings :=
  {| waitAfter := 5; waitSeconds := 2%float; includeSelfInActions := false |}.

(** ** The batch runner *)

(** The two places where [runSequential] gives control back to the event
    loop during iteration [i]. *)
Inductive Suspension : Type :=
| AwaitPromise (i : nat)
| AwaitTimer (i : nat).

(** What an observer of one call of [runSequential] sees, in order. *)
Inductive Step (E T : Type) : Type :=
| Started (i : nat)                 (* promises[i]() is called *)
| Effect (e : E)                    (* something the producer did *)
| Resolved (i : nat) (result : T)   (* await promise returned result *)
| Threw (i : nat) (error : JsError) (* await promise threw *)
| Slept (i : nat) (ms : float).     (* the setTimeout promise was awaited *)

Arguments Started {E T} i.
Arguments Effect {E T} e.
Arguments Resolved {E T} i result.
Arguments Threw {E T} i error.
Arguments Slept {E T} i ms.

Section Runner.
(** [W] is the state of the world the producers act on, [E] what they
    are seen to do, [T] what their promises are fulfilled with. *)
Context {W E T : Type}.

(** [settings.store], which the plugin only reads. *)
Variable settings : Settings.

(** What the rest of the client does to the world while the runner is
    suspended. *)
Variable idle : Suspension -> W -> W.

(** A producer [() => Promise<T>]: calling it acts on the world and
    starts an operation, which ends as the first component says. *)
Definition Producer : Type := W -> Settled T * W * list E.

Definition Run : Type := Settled (list T) * W * list (Step E T).

Definition after (pre : list (Step E T)) (r : Run) : Run :=
  let '(out, w, tr) := r in (out, w, pre ++ tr).

(** The body of the [for] loop, from index [i] on; [promises] is what is
    left of the array from that index. *)
Fixpoint loop (i : nat) (promises : list Producer) (results : list T)
    (w : W) : Run :=
  match promises with
  | [] => (Fulfilled results, w, [])
  | p :: promises' =>
      let '(promise, w, es) := p w in
      let w := idle (AwaitPromise i) w in
      match promise with
      | Fulfilled result =>
          let results := results ++ [result] in
          if rem_is_zero (Z.of_nat i) (waitAfter settings) then
            let w := idle (AwaitTimer i) w in
            after (Started i :: map Effect es
                     ++ [Resolved i result;
                         Slept i (waitSeconds settings * 1000)%float])
                  (loop (S i) promises' results w)
          else
            after (Started i :: map Effect es ++ [Resolved i result])
                  (loop (S i) promises' results w)
      | Rejected e =>
          (Rejected e, w, Started i :: map Effect es ++ [Threw i e])
      | Pending =>
          (Pending, w, Started i :: map Effect es)
      end
  end.

Definition runSequential (promises : list Producer) (w : W) : Run :=
  loop 0 promises [] w.
End Runner.

(** [p.catch(handler)] for a handler that returns nothing: the promise it
    gives, and what the handler is seen to do. *)
Definition catch {E T : Type} (p : Settled T) (handler : JsError -> list E)
    : Settled (option T) * list E :=
  match p with
  | Fulfilled v => (Fulfilled (Some v), [])
  | Rejected e => (Fulfilled None, handler e)
  | Pending => (Pending, [])
  end.

(** ** The chat client *)

Record Channel : Type := {
  id : string;
  guild_id : string;
  type : Z;
  name : string
}.

Record VoiceState : Type := {
  userId : string;
  channelId : string;
  mute : bool;
  deaf : bool
}.

Inductive PermissionsBits : Type :=
| MOVE_MEMBERS
| MUTE_MEMBERS
| DEAFEN_MEMBERS.

(** An entry of [GuildChannelStore.getChannels(guildId).VOCAL]. *)
Record VocalEntry : Type := {
  channel : Channel;
  comparator : Z
}.

(** [({ channel }) => channel] *)
Definition entry_channel (entry : VocalEntry) : Channel := channel entry.

(** The argument of [RestAPI.patch]. *)
Record Request : Type := {
  url : string;
  body : list (string * JsValue)
}.

(** The state of the client's stores and of the service behind its REST
    client.  An object used as a map from user ids is the list of its
    properties, in the order [Object.keys] and [Object.values] give them. *)
Record Host : Type := {
  voiceStates : gmap string (list (string * VoiceState));
  currentUser : string;
  voiceChannelId : option string;
  localMutes : gset string;
  selfMute : bool;
  soundboardMutes : gset string;
  can : PermissionsBits -> string -> bool;
  vocal : gmap string (list VocalEntry);
  patched : list Request;
  answer : list Request -> Request -> Settled JsValue
}.

(** The calls into the client that can be observed from outside. *)
Inductive Event : Type :=
| GetVoiceStatesForChannel (channelId : string)
| RestPatch (request : Request)
| ConsoleError (message : string) (error : JsError)
| ChannelDisconnect
| ChannelSelectVoiceChannel (channelId : string)
| ToggleSelfMute
| ToggleLocalMute (userId : string)
| ToggleLocalSoundboardMute (userId : string).

(** Synchronous code: it reads and writes the stores and is seen to make
    calls. *)
Definition M (A : Type) : Type := Host -> A * Host * list Event.

#[global] Instance M_ret : MRet M := fun A a h => (a, h, []).
#[global] Instance M_bind : MBind M := fun A B k m h =>
  let '(a, h1, es1) := m h in
  let '(b, h2, es2) := k a h1 in
  (b, h2, es1 ++ es2).

Definition gets {A : Type} (f : Host -> A) : M A := fun h => (f h, h, []).
Definition emit (e : Event) : M unit := fun h => (tt, h, [e]).
Definition modify (f : Host -> Host) : M unit := fun h => (tt, f h, []).

Definition skip : M unit := mret tt.

(** The statements [a || b()] and [a && b()] *)
Definition or_else (a : M bool) (b : M unit) : M unit :=
  a ≫= (fun x : bool => if x then skip else b).
Definition and_also (a : M bool) (b : M unit) : M unit :=
  a ≫= (fun x : bool => if x then b else skip).

(** [array.forEach(f)] *)
Fixpoint forEach {A : Type} (array : list A) (f : A -> M unit) : M unit :=
  match array with
  | [] => mret tt
  | x :: array' => f x;; forEach array' f
  end.

Definition Object_keys {V : Type} (o : list (string * V)) : list string := o.*1.
Definition Object_values {V : Type} (o : list (string * V)) : list V := o.*2.

(** [set] with [x] put in if it was out and taken out if it was in. *)
Definition flip_member (x : string) (set : gset string) : gset string :=
  if decide (x ∈ set) then set ∖ {[x]} else set ∪ {[x]}.

Module VoiceStateStore.
Definition getVoiceStatesForChannel (channelId : string)
    : M (list (string * VoiceState)) :=
  emit (GetVoiceStatesForChannel channelId);;
  gets (fun h => default [] (voiceStates h !! channelId)).
End VoiceStateStore.

Module UserStore.
(** [UserStore.getCurrentUser().id] *)
Definition getCurrentUser_id : M string := gets currentUser.
End UserStore.

Module SelectedChannelStore.
Definition getVoiceChannelId : M (option string) := gets voiceChannelId.
End SelectedChannelStore.

Module MediaEngineStore.
Definition isLocalMute (userId : string) : M bool :=
  gets (fun h => bool_decide (userId ∈ localMutes h)).
Definition isSelfMute : M bool := gets selfMute.
End MediaEngineStore.

Module SoundboardStore.
Definition isLocalSoundboardMuted (userId : string) : M bool :=
  gets (fun h => bool_decide (userId ∈ soundboardMutes h)).
End SoundboardStore.

Module PermissionStore.
(** [PermissionStore.canWithPartialContext(p, { channelId })] *)
Definition canWithPartialContext (p : PermissionsBits) (channelId : string)
    : M bool :=
  gets (fun h => can h p channelId).
End PermissionStore.

Module GuildChannelStore.
(** [GuildChannelStore.getChannels(guildId).VOCAL] *)
Definition getChannels_VOCAL (guildId : string) : M (list VocalEntry) :=
  gets (fun h => default [] (vocal h !! guildId)).
End GuildChannelStore.

Definition with_voiceChannelId (v : option string) (h : Host) : Host :=
  {| voiceStates := voiceStates h; currentUser := currentUser h;
     voiceChannelId := v; localMutes := localMutes h;
     selfMute := selfMute h; soundboardMutes := soundboardMutes h;
     can := can h; vocal := vocal h; patched := patched h;
     answer := answer h |}.

Definition with_localMutes (s : gset string) (h : Host) : Host :=
  {| voiceStates := voiceStates h; currentUser := currentUser h;
     voiceChannelId := voiceChannelId h; localMutes := s;
     selfMute := selfMute h; soundboardMutes := soundboardMutes h;
     can := can h; vocal := vocal h; patched := patched h;
     answer := answer h |}.

Definition with_selfMute (b : bool) (h : Host) : Host :=
  {| voiceStates := voiceStates h; currentUser := currentUser h;
     voiceChannelId := voiceChannelId h; localMutes := localMutes h;
     selfMute := b; soundboardMutes := soundboardMutes h;
     can := can h; vocal := vocal h; patched := patched h;
     answer := answer h |}.

Definition with_soundboardMutes (s : gset string) (h : Host) : Host :=
  {| voiceStates := voiceStates h; currentUser := currentUser h;
     voiceChannelId := voiceChannelId h; localMutes := localMutes h;
     selfMute := selfMute h; soundboardMutes := s;
     can := can h; vocal := vocal h; patched := patched h;
     answer := answer h |}.

Definition with_patched (l : list Request) (h : Host) : Host :=
  {| voiceStates := voiceStates h; currentUser := currentUser h;
     voiceChannelId := voiceChannelId h; localMutes := localMutes h;
     selfMute := selfMute h; soundboardMutes := soundboardMutes h;
     can := can h; vocal := vocal h; patched := l;
     answer := answer h |}.

Definition with_voiceStates (m : gmap string (list (string * VoiceState)))
    (h : Host) : Host :=
  {| voiceStates := m; currentUser := currentUser h;
     voiceChannelId := voiceChannelId h; localMutes := localMutes h;
     selfMute := selfMute h; soundboardMutes := soundboardMutes h;
     can := can h; vocal := vocal h; patched := patched h;
     answer := answer h |}.

Module ChannelActions.
Definition disconnect : M unit :=
  emit ChannelDisconnect;; modify (with_voiceChannelId None).
Definition selectVoiceChannel (channelId : string) : M unit :=
  emit (ChannelSelectVoiceChannel channelId);;
  modify (with_voiceChannelId (Some channelId)).
End ChannelActions.

Module ClientActions.
Definition toggleSelfMute : M unit :=
  emit ToggleSelfMute;;
  modify (fun h => with_selfMute (negb (selfMute h)) h).
Definition toggleLocalMute (userId : string) : M unit :=
  emit (ToggleLocalMute userId);;
  modify (fun h => with_localMutes (flip_member userId (localMutes h)) h).
Definition toggleLocalSoundboardMute (userId : string) : M unit :=
  emit (ToggleLocalSoundboardMute userId);;
  modify (fun h =>
    with_soundboardMutes (flip_member userId (soundboardMutes h)) h).
End ClientActions.

Module RestAPI.
(** [RestAPI.patch(request)], as a producer: the request goes out when
    it is called; the service, which has seen the requests before it,
    says how the promise ends. *)
Definition patch (request : Request) : Producer (W := Host) (E := Event) (T := JsValue) :=
  fun h =>
    (answer h (patched h) request,
     with_patched (patched h ++ [request]) h,
     [RestPatch request]).
End RestAPI.

Module console.
Definition error (message : string) (error : JsError) : list Event :=
  [ConsoleError message error].
End console.

(** ** Menus *)

(** [() => actions.key(channel, newChannel)] *)
Inductive ActionCall : Type :=
| Call (key : string) (channel : Channel) (newChannel : option Channel).

#[warnings="-register-all"]
Inductive MenuNode : Type :=
| MenuItem (id label : string) (danger : bool) (action : option ActionCall)
    (children : list MenuNode)
| MenuGroup (label : string) (children : list MenuNode).

(** [children.splice(-1, 0, item)]: [item] goes in before the last
    element, or into the empty array. *)
Definition splice_before_last {A : Type} (children : list A) (item : A)
    : list A :=
  let start := (length children - 1)%nat in
  take start children ++ item :: drop start children.

(** [cond && <>...</>] inside a list of children *)
Definition when {A : Type} (cond : bool) (nodes : list A) : list A :=
  if cond then nodes else [].

(** Code that ends in a promise which is left to run. *)
Definition Trace : Type := list (Step Event JsValue).
Definition Async (A : Type) : Type := Host -> Settled A * Host * Trace.

Definition and_then {A B : Type} (m : M A) (k : A -> Async B) : Async B :=
  fun h =>
    let '(a, h1, es) := m h in
    let '(r, h2, tr) := k a h1 in
    (r, h2, map Effect es ++ tr).

(** ** The plugin, second file *)

Module Plugin.

Definition getVoiceStates (channel : Channel) (includeSelf : bool)
    : M (list VoiceState) :=
  o ← VoiceStateStore.getVoiceStatesForChannel (id channel);
  let vcStates := Object_values o in
  myId ← UserStore.getCurrentUser_id;
  mret (filter (fun state => includeSelf = true \/ userId state <> myId)
               vcStates).

Definition member_url (channel : Channel) (userVoice : VoiceState) : string :=
  "/guilds/" +:+ guild_id channel +:+ "/members/" +:+ userId userVoice.

(** The array [promises] that [sendPatch] fills. *)
Definition patch_producers (channel : Channel)
    (body : list (string * JsValue)) (usersVoice : list VoiceState)
    : list (Producer (W := Host) (E := Event) (T := JsValue)) :=
  map (fun userVoice =>
         RestAPI.patch {| url := member_url channel userVoice;
                          body := body |})
      usersVoice.

Definition sendPatch (settings : Settings) (idle : Suspension -> Host -> Host)
    (channel : Channel) (body : list (string * JsValue))
    (includeSelf : bool) : Async (option (list JsValue)) :=
  and_then (getVoiceStates channel includeSelf) (fun usersVoice h =>
    let promises := patch_producers channel body usersVoice in
    let '(p, h1, tr) := runSequential settings idle promises h in
    let '(p', es) :=
      catch p (console.error "VoiceChatUtilities failed to run") in
    (p', h1, tr ++ map Effect es)).

Module actions.
Definition mute (settings : Settings) (c : Channel) : M unit :=
  states ← getVoiceStates c false;
  forEach states (fun state =>
    or_else (MediaEngineStore.isLocalMute (userId state))
            (ClientActions.toggleLocalMute (userId state)));;
  if includeSelfInActions settings
  then or_else MediaEngineStore.isSelfMute ClientActions.toggleSelfMute
  else skip.

Definition unmute (settings : Settings) (c : Channel) : M unit :=
  states ← getVoiceStates c false;
  forEach states (fun state =>
    and_also (MediaEngineStore.isLocalMute (userId state))
             (ClientActions.toggleLocalMute (userId state)));;
  if includeSelfInActions settings
  then and_also MediaEngineStore.isSelfMute ClientActions.toggleSelfMute
  else skip.

Definition muteSoundboards (settings : Settings) (c : Channel) : M unit :=
  states ← getVoiceStates c false;
  forEach states (fun state =>
    or_else (SoundboardStore.isLocalSoundboardMuted (userId state))
            (ClientActions.toggleLocalSoundboardMute (userId state))).

Definition unmuteSoundboards (settings : Settings) (c : Channel)
    : M unit :=
  states ← getVoiceStates c false;
  forEach states (fun state =>
    and_also (SoundboardStore.isLocalSoundboardMuted (userId state))
             (ClientActions.toggleLocalSoundboardMute (userId state))).

Definition serverMute settings idle (c : Channel) :=
  sendPatch settings idle c [("mute"%string, JBool true)]
            (includeSelfInActions settings).
Definition serverUnmute settings idle (c : Channel) :=
  sendPatch settings idle c [("mute"%string, JBool false)]
            (includeSelfInActions settings).
Definition serverDeafen settings idle (c : Channel) :=
  sendPatch settings idle c [("deaf"%string, JBool true)]
            (includeSelfInActions settings).
Definition serverUndeafen settings idle (c : Channel) :=
  sendPatch settings idle c [("deaf"%string, JBool false)]
            (includeSelfInActions settings).

Definition disconnect settings idle (channel : Channel)
    : Async (option (list JsValue)) :=
  and_then
    (selected ← SelectedChannelStore.getVoiceChannelId;
     if decide (selected = Some (id channel))
     then ChannelActions.disconnect else skip)
    (fun _ =>
       sendPatch settings idle channel [("channel_id"%string, JNull)]
                 false).

Definition moveTo settings idle (channel newChannel : Channel)
    : Async (option (list JsValue)) :=
  and_then
    (selected ← SelectedChannelStore.getVoiceChannelId;
     if decide (selected = Some (id channel))
     then ChannelActions.selectVoiceChannel (id newChannel)
     else skip)
    (fun _ =>
       sendPatch settings idle channel
                 [("channel_id"%string, JString (id newChannel))] false).
End actions.

(** The "Voice Tools" item, given what the callback has read. *)
Definition voice_tools (channel : Channel) (voiceChannels : list Channel)
    (hasOtherUsers movePermission mutePermission deafPermission : bool)
    : MenuNode :=
  MenuItem "voice-tools" "Voice Tools" false None
    [ MenuGroup "Client actions"
        ([ MenuItem "voice-tools-mute-all" "Mute all locally" false
             (Some (Call "mute" channel None)) [];
           MenuItem "voice-tools-unmute-all" "Unmute all locally" false
             (Some (Call "unmute" channel None)) [] ]
         ++ when hasOtherUsers
           [ MenuItem "voice-tools-soundboard-sound-mute-all"
               "Mute all soundboards" false
               (Some (Call "muteSoundboards" channel None)) [];
             MenuItem "voice-tools-soundboard-sound-unmute-all"
               "Unmute all soundboards" false
               (Some (Call "unmuteSoundboards" channel None)) [] ]);
      MenuGroup "Server actions"
        (when mutePermission
           [ MenuItem "voice-tools-server-mute-all" "Server mute all" false
               (Some (Call "serverMute" channel None)) [];
             MenuItem "voice-tools-server-unmute-all" "Server unmute all"
               false (Some (Call "serverUnmute" channel None)) [] ]
         ++ when deafPermission
           [ MenuItem "voice-tools-server-deafen-all" "Server deafen all"
               false (Some (Call "serverDeafen" channel None)) [];
             MenuItem "voice-tools-server-undeafen-all"
               "Server undeafen all" true
               (Some (Call "serverUndeafen" channel None)) [] ]
         ++ when movePermission
           [ MenuItem "voice-tools-disconnect-all" "Disconnect all" true
               (Some (Call "disconnect" channel None)) [];
             MenuItem "voice-tools-move-all" "Move all" false None
               (map (fun voiceChannel =>
                       MenuItem (id voiceChannel) (name voiceChannel) false
                         (Some (Call "moveTo" channel (Some voiceChannel)))
                         [])
                    voiceChannels) ]) ].

(** The context-menu callback.  It returns nothing and changes
    [children] in place: the result is [children] after the call. *)
Definition VoiceChannelContext (settings : Settings)
    (children : list MenuNode) (channel : option Channel)
    : M (list MenuNode) :=
  match channel with
  | None => mret children
  | Some channel =>
      if negb (type channel =? 2) && negb (type channel =? 13)
      then mret children
      else
        counted ← getVoiceStates channel (includeSelfInActions settings);
        let userCount := length counted in
        others ← getVoiceStates channel false;
        let hasOtherUsers := bool_decide (0 < length others)%nat in
        if bool_decide (userCount = 0%nat) then mret children
        else
          guildChannels ← GuildChannelStore.getChannels_VOCAL (guild_id channel);
          let voiceChannels :=
            filter (fun c => id c <> id channel)
                   (map entry_channel guildChannels) in
          movePermission ← PermissionStore.canWithPartialContext MOVE_MEMBERS (id channel);
          mutePermission ← PermissionStore.canWithPartialContext MUTE_MEMBERS (id channel);
          deafPermission ← PermissionStore.canWithPartialContext DEAFEN_MEMBERS (id channel);
          mret (splice_before_last children
                  (voice_tools channel voiceChannels hasOtherUsers
                     movePermission mutePermission deafPermission))
  end.

End Plugin.

(** ** The plugin, first file ([index.tsx]) *)

Module IndexTsx.

Definition member_url (channel : Channel) (userVoice : VoiceState) : string :=
  "/guilds/" +:+ guild_id channel +:+ "/members/" +:+ userId userVoice.

Definition sendPatch (settings : Settings) (idle : Suspension -> Host -> Host)
    (channel : Channel) (body : list (string * JsValue)) (bypass : bool)
    : Async (option (list JsValue)) :=
  and_then
    (usersVoice ← VoiceStateStore.getVoiceStatesForChannel (id channel);
     myId ← UserStore.getCurrentUser_id;
     mret (usersVoice, myId))
    (fun '(usersVoice, myId) h =>
       let promises :=
         map (fun userVoice =>
                RestAPI.patch {| url := member_url channel userVoice;
                                 body := body |})
             (filter (fun userVoice =>
                        bypass = true \/ userId userVoice <> myId)
                     (Object_values usersVoice)) in
       let '(p, h1, tr) := runSequential settings idle promises h in
       let '(p', es) :=
         catch p (console.error "VoiceChatUtilities failed to run") in
       (p', h1, tr ++ map Effect es)).

Module actions.
Definition serverMute settings idle (c : Channel) :=
  sendPatch settings idle c [("mute"%string, JBool true)] false.
Definition serverUnmute settings idle (c : Channel) :=
  sendPatch settings idle c [("mute"%string, JBool false)] false.
Definition serverDeafen settings idle (c : Channel) :=
  sendPatch settings idle c [("deaf"%string, JBool true)] false.
Definition serverUndeafen settings idle (c : Channel) :=
  sendPatch settings idle c [("deaf"%string, JBool false)] false.

Definition disconnect settings idle (channel : Channel)
    : Async (option (list JsValue)) :=
  and_then
    (selected ← SelectedChannelStore.getVoiceChannelId;
     if decide (selected = Some (id channel))
     then ChannelActions.disconnect else skip)
    (fun _ =>
       sendPatch settings idle channel [("channel_id"%string, JNull)]
                 false).

Definition moveTo settings idle (channel newChannel : Channel)
    : Async (option (list JsValue)) :=
  and_then
    (selected ← SelectedChannelStore.getVoiceChannelId;
     if decide (selected = Some (id channel))
     then ChannelActions.selectVoiceChannel (id newChannel)
     else skip)
    (fun _ =>
       sendPatch settings idle channel
                 [("channel_id"%string, JString (id newChannel))] false).
End actions.

(** [useStateFromStores([PermissionStore], () => true)] *)
Definition permission_state (p : PermissionsBits) : M bool := mret true.

Definition voice_tools (channel : Channel) (voiceChannels : list Channel)
    (movePermission mutePermission deafPermission : bool) : MenuNode :=
  MenuItem "voice-tools" "Voice Tools" false None
    [ MenuGroup "Client" [];
      MenuGroup "Server"
        (when mutePermission
           [ MenuItem "voice-tools-server-mute-all" "Server mute all" false
               (Some (Call "mute" channel None)) [];
             MenuItem "voice-tools-server-unmute-all" "Server unmute all"
               false (Some (Call "unmute" channel None)) [] ]
         ++ when deafPermission
           [ MenuItem "voice-tools-server-deafen-all" "Server deafen all"
               false (Some (Call "deafen" channel None)) [];
             MenuItem "voice-tools-server-undeafen-all"
               "Server undeafen all" true
               (Some (Call "undeafen" channel None)) [] ]
         ++ when movePermission
           [ MenuItem "voice-tools-disconnect-all" "Disconnect all" true
               (Some (Call "disconnect" channel None)) [];
             MenuItem "voice-tools-move-all" "Move all" false None
               (map (fun voiceChannel =>
                       MenuItem (id voiceChannel) (name voiceChannel) false
                         (Some (Call "move" channel (Some voiceChannel)))
                         [])
                    voiceChannels) ]) ].

Definition VoiceChannelContext (children : list MenuNode)
    (channel : option Channel) : M (list MenuNode) :=
  match channel with
  | None => mret children
  | Some channel =>
      if negb (type channel =? 2) && negb (type channel =? 13)
      then mret children
      else
        o ← VoiceStateStore.getVoiceStatesForChannel (id channel);
        let userCount := length (Object_keys o) in
        if bool_decide (userCount = 0%nat) then mret children
        else
          guildChannels ← GuildChannelStore.getChannels_VOCAL (guild_id channel);
          let voiceChannels :=
            filter (fun c => id c <> id channel)
                   (map entry_channel guildChannels) in
          movePermission ← permission_state MOVE_MEMBERS;
          mutePermission ← permission_state MUTE_MEMBERS;
          deafPermission ← permission_state DEAFEN_MEMBERS;
          mret (splice_before_last children
                  (voice_tools channel voiceChannels
                     movePermission mutePermission deafPermission))
  end.

End IndexTsx.

(** ** What is read off a trace *)

Definition sleep_index {E T : Type} (s : Step E T) : option nat :=
  match s with Slept i _ => Some i | _ => None end.

Definition resolution {E T : Type} (s : Step E T) : option (nat * T) :=
  match s with Resolved i v => Some (i, v) | _ => None end.

Definition start_index {E T : Type} (s : Step E T) : option nat :=
  match s with Started i => Some i | _ => None end.

Definition effect {E T : Type} (s : Step E T) : option E :=
  match s with Effect e => Some e | _ => None end.

Definition patch_request (e : Event) : option Request :=
  match e with RestPatch request => Some request | _ => None end.

(** The indices after which the runner paused, in order. *)
Definition pauses {E T : Type} (tr : list (Step E T)) : list nat :=
  omap sleep_index tr.

(** The awaits that returned, in order, each with its result. *)
Definition resolutions {E T : Type} (tr : list (Step E T)) : list (nat * T) :=
  omap resolution tr.

(** The producers that were called, in order. *)
Definition starts {E T : Type} (tr : list (Step E T)) : list nat :=
  omap start_index tr.

Definition effects {E T : Type} (tr : list (Step E T)) : list E :=
  omap effect tr.

(** The requests that went out, in order. *)
Definition requests (tr : Trace) : list Request :=
  omap patch_request (effects tr).

(** The pause count as the specification gives it: [floor((n-1)/b) + 1]
    for [n >= 1], and none for [n = 0]. *)
Definition pause_count (n b : Z) : Z :=
  if n =? 0 then 0 else (n - 1) / b + 1.

(** The request for one member. *)
Definition member_request (channel : Channel) (body : list (string * JsValue))
    (userVoice : VoiceState) : Request :=
  {| url := Plugin.member_url channel userVoice; body := body |}.

(** The members a server action of the second file is for. *)
Definition roster (includeSelf : bool) (channel : Channel) (h : Host)
    : list VoiceState :=
  filter (fun state => includeSelf = true \/ userId state <> currentUser h)
         (Object_values (default [] (voiceStates h !! id channel))).

(** The user ids of a list of voice states, as a set. *)
Definition user_ids (states : list VoiceState) : gset string :=
  list_to_set (userId <$> states).

(** A step of a trace that acts on [user]: the local calls that leave or
    switch the voice channel, and a request for that member. *)
Definition affects (channel : Channel) (user : string)
    (s : Step Event JsValue) : Prop :=
  match s with
  | Effect ChannelDisconnect => True
  | Effect (ChannelSelectVoiceChannel _) => True
  | Effect (RestPatch request) =>
      url request = "/guilds/" +:+ guild_id channel +:+ "/members/" +:+ user
  | _ => False
  end.

#[global] Instance affects_dec channel user s : Decision (affects channel user s).
Proof.
  destruct s as [| [] | | |]; simpl; apply _.
Defined.

(** The items directly under the group labelled [label] of a menu item. *)
Definition group_items (label : string) (node : MenuNode) : list string :=
  match node with
  | MenuItem _ _ _ _ children =>
      mjoin (map (fun child =>
                    match child with
                    | MenuGroup l items =>
                        if decide (l = label)
                        then omap (fun item =>
                                     match item with
                                     | MenuItem id _ _ _ _ => Some id
                                     | MenuGroup _ _ => None
                                     end) items
                        else []
                    | MenuItem _ _ _ _ _ => []
                    end) children)
  | MenuGroup _ _ => []
  end.

Definition node_id (node : MenuNode) : option string :=
  match node with
  | MenuItem id _ _ _ _ => Some id
  | MenuGroup _ _ => None
  end.

(** ** One iteration of the runner *)

Section Iteration.
Context {W E T : Type}.
Variable settings : Settings.
Variable idle : Suspension -> W -> W.

(** Whether the runner pauses after index [i]. *)
Definition pause_due (i : nat) : bool :=
  rem_is_zero (Z.of_nat i) (waitAfter settings).

(** The steps of an iteration whose producer was fulfilled. *)
Definition iteration (i : nat) (es : list E) (v : T) : list (Step E T) :=
  (Started i :: map Effect es ++ [Resolved i v])
    ++ (if pause_due i
        then [Slept i (waitSeconds settings * 1000)%float] else []).

Definition world_after (i : nat) (w : W) : W :=
  let w := idle (AwaitPromise i) w in
  if pause_due i then idle (AwaitTimer i) w else w.

End Iteration.

(** The request [body] for the member [user] of [channel]'s guild. *)
Definition request_for (channel : Channel) (body : list (string * JsValue))
    (user : string) : Request :=
  {| url := "/guilds/" +:+ guild_id channel +:+ "/members/" +:+ user;
     body := body |}.

(** The rest of the client changing who is in which channel, and nothing
    else, while the runner is suspended. *)
Definition membership_changes
    (later : Suspension -> gmap string (list (string * VoiceState)))
    : Suspension -> Host -> Host :=
  fun s => with_voiceStates (later s).

(** [settings] with another value of the self-inclusion flag. *)
Definition with_includeSelfInActions (flag : bool) (settings : Settings)
    : Settings :=
  {| waitAfter := waitAfter settings; waitSeconds := waitSeconds settings;
     includeSelfInActions := flag |}.

(** ** A guild to try things on *)

Definition lobby : Channel :=
  {| id := "100"; guild_id := "1"; type := 2; name := "Lobby" |}.

Definition stage : Channel :=
  {| id := "200"; guild_id := "1"; type := 13; name := "Stage" |}.

Definition present (user : string) (c : Channel) : string * VoiceState :=
  (user, {| userId := user; channelId := id c; mute := false; deaf := false |}).

(** The client of [me], connected to [connected], with [members] in the
    lobby, the permissions [may] and a service that answers with
    [service]. *)
Definition client (me : string) (connected : option string)
    (members : list string) (may : PermissionsBits -> string -> bool)
    (service : list Request -> Request -> Settled JsValue) : Host :=
  {| voiceStates := {[ id lobby := (fun user => present user lobby) <$> members ]};
     currentUser := me;
     voiceChannelId := connected;
     localMutes := ∅;
     selfMute := false;
     soundboardMutes := ∅;
     can := may;
     vocal := {[ guild_id lobby := [ {| channel := lobby; comparator := 0 |};
                                     {| channel := stage; comparator := 1 |} ] ]};
     patched := [];
     answer := service |}.

Definition accepts : list Request -> Request -> Settled JsValue :=
  fun _ _ => Fulfilled JNull.

Definition refuses : list Request -> Request -> Settled JsValue :=
  fun _ _ => Rejected "403".

Definition undisturbed : Suspension -> Host -> Host := fun _ h => h.

(** The ids of the server items, by the permission that shows them. *)
Definition mute_items : list string :=
  ["voice-tools-server-mute-all"; "voice-tools-server-unmute-all"]%string.
Definition deafen_items : list string :=
  ["voice-tools-server-deafen-all"; "voice-tools-server-undeafen-all"]%string.
Definition move_items : list string :=
  ["voice-tools-disconnect-all"; "voice-tools-move-all"]%string.

(** ** More readings of traces, events and menus *)

(** The pauses of a trace with their lengths in milliseconds, in order. *)
Definition sleep {E T : Type} (s : Step E T) : option (nat * float) :=
  match s with Slept i ms => Some (i, ms) | _ => None end.

Definition sleeps {E T : Type} (tr : list (Step E T)) : list (nat * float) :=
  omap sleep tr.

(** The calls that stay inside the client: the read of the voice states
    and the three toggles. *)
Definition is_local_call (e : Event) : bool :=
  match e with
  | GetVoiceStatesForChannel _ | ToggleSelfMute | ToggleLocalMute _
  | ToggleLocalSoundboardMute _ => true
  | RestPatch _ | ConsoleError _ _ | ChannelDisconnect
  | ChannelSelectVoiceChannel _ => false
  end.

(** The direct calls that change the client's own voice channel. *)
Definition is_channel_call (s : Step Event JsValue) : bool :=
  match s with
  | Effect ChannelDisconnect | Effect (ChannelSelectVoiceChannel _) => true
  | _ => false
  end.

(** The nodes directly under the group labelled [label] of a menu item. *)
Definition group_nodes (label : string) (node : MenuNode) : list MenuNode :=
  match node with
  | MenuItem _ _ _ _ children =>
      mjoin (map (fun child =>
                    match child with
                    | MenuGroup l items => if decide (l = label) then items else []
                    | MenuItem _ _ _ _ _ => []
                    end) children)
  | MenuGroup _ _ => []
  end.

(** The children of the items with id [id] among [nodes]. *)
Definition children_of (id : string) (nodes : list MenuNode) : list MenuNode :=
  mjoin (map (fun node =>
                match node with
                | MenuItem i _ _ _ children =>
                    if decide (i = id) then children else []
                | MenuGroup _ _ => []
                end) nodes).

(** The [action] closures of a menu, item by item, from the top down. *)
Fixpoint menu_calls (node : MenuNode) : list ActionCall :=
  match node with
  | MenuItem _ _ _ action children =>
      match action with Some call => [call] | None => [] end
      ++ concat (List.map menu_calls children)
  | MenuGroup _ children => concat (List.map menu_calls children)
  end.

Definition call_key (call : ActionCall) : string :=
  match call with Call key _ _ => key end.

(** ** The [actions] tables *)

(** An entry of [actions]: a function of the channel that acts on the
    client, one that sends a batch, or one that also uses [newChannel]. *)
Inductive Handler : Type :=
| LocalAction (run : Settings -> Channel -> M unit)
| ServerAction
    (run : Settings -> (Suspension -> Host -> Host) -> Channel
           -> Async (option (list JsValue)))
| MoveAction
    (run : Settings -> (Suspension -> Host -> Host) -> Channel -> Channel
           -> Async (option (list JsValue))).

(** [const actions = { ... }] of the second file. *)
Definition Plugin_actions : gmap string Handler :=
  list_to_map
    [ ("mute"%string, LocalAction Plugin.actions.mute);
      ("unmute"%string, LocalAction Plugin.actions.unmute);
      ("muteSoundboards"%string, LocalAction Plugin.actions.muteSoundboards);
      ("unmuteSoundboards"%string,
       LocalAction Plugin.actions.unmuteSoundboards);
      ("serverMute"%string, ServerAction Plugin.actions.serverMute);
      ("serverUnmute"%string, ServerAction Plugin.actions.serverUnmute);
      ("serverDeafen"%string, ServerAction Plugin.actions.serverDeafen);
      ("serverUndeafen"%string, ServerAction Plugin.actions.serverUndeafen);
      ("disconnect"%string, ServerAction Plugin.actions.disconnect);
      ("moveTo"%string, MoveAction Plugin.actions.moveTo) ].

(** [const actions = { ... }] of [index.tsx]. *)
Definition IndexTsx_actions : gmap string Handler :=
  list_to_map
    [ ("serverMute"%string, ServerAction IndexTsx.actions.serverMute);
      ("serverUnmute"%string, ServerAction IndexTsx.actions.serverUnmute);
      ("serverDeafen"%string, ServerAction IndexTsx.actions.serverDeafen);
      ("serverUndeafen"%string, ServerAction IndexTsx.actions.serverUndeafen);
      ("disconnect"%string, ServerAction IndexTsx.actions.disconnect);
      ("moveTo"%string, MoveAction IndexTsx.actions.moveTo) ].

(** Whether [actions.key(channel, newChannel)] can be called: [actions.key]
    has to be there, and [moveTo] reads [newChannel!.id]. *)
Definition callable (actions : gmap string Handler) (call : ActionCall)
    : bool :=
  match call with
  | Call key _ newChannel =>
      match actions !! key with
      | Some (MoveAction _) => bool_decide (is_Some newChannel)
      | Some _ => true
      | None => false
      end
  end.

(** ** The service during a batch *)

(** The rest of the client leaves the service and the requests it has
    seen alone while the runner is suspended. *)
Definition leaves_service (idle : Suspension -> Host -> Host) : Prop :=
  forall s h, answer (idle s h) = answer h /\ patched (idle s h) = patched h.

(** How the service of [h] answers request [k] of [batch] when the
    requests before it have been sent. *)
Definition reply (h : Host) (batch : list Request) (k : nat)
    : option (Settled JsValue) :=
  (fun request => answer h (patched h ++ take k batch) request)
    <$> batch !! k.

(** A service that refuses the requests for [user] and accepts the
    others. *)
Definition refuses_member (user : string)
    : list Request -> Request -> Settled JsValue :=
  fun _ request =>
    if decide (url request
               = "/guilds/" +:+ guild_id lobby +:+ "/members/" +:+ user)
    then Rejected "403" else Fulfilled JNull.

(** The calls that act: a toggle, a request, a log, a direct call on the
    voice channel. *)
Definition acts (e : Event) : bool :=
  match e with
  | GetVoiceStatesForChannel _ => false
  | RestPatch _ | ConsoleError _ _ | ChannelDisconnect
  | ChannelSelectVoiceChannel _ | ToggleSelfMute | ToggleLocalMute _
  | ToggleLocalSoundboardMute _ => true
  end.

(** The errors logged in a trace, in order. *)
Definition logged (tr : Trace) : list JsError :=
  omap (fun e => match e with ConsoleError _ error => Some error | _ => None end)
       (effects tr).

(** * Properties *)

(** ** Arithmetic of the pause cadence *)

Lemma rem_is_zero_mod (i : nat) (b : Z) :
  1 <= b -> rem_is_zero (Z.of_nat i) b = bool_decide (Z.of_nat i `mod` b = 0).
Proof.
  intros Hb. unfold rem_is_zero.
  destruct (Z.eqb_spec b 0) as [->|_]; [lia|].
  rewrite Z.rem_mod_nonneg by lia.
  destruct (Z.eqb_spec (Z.of_nat i `mod` b) 0) as [Heq|Hne].
  - by rewrite bool_decide_eq_true_2.
  - by rewrite bool_decide_eq_false_2.
Qed.

Lemma div_pred_step (n b : Z) :
  1 <= b -> 1 <= n ->
  n / b = (n - 1) / b + (if decide (n `mod` b = 0) then 1 else 0).
Proof.
  intros Hb Hn.
  pose proof (Z.div_mod n b ltac:(lia)) as Hdm.
  pose proof (Z.mod_pos_bound n b ltac:(lia)) as Hr.
  destruct (decide (n `mod` b = 0)) as [Hz|Hnz].
  - assert ((n - 1) / b = n / b - 1); [|lia].
    symmetry. apply (Z.div_unique _ _ _ (b - 1)); lia.
  - assert ((n - 1) / b = n / b); [|lia].
    symmetry. apply (Z.div_unique _ _ _ (n `mod` b - 1)); lia.
Qed.

Lemma pause_count_succ (n : nat) (b : Z) :
  1 <= b ->
  pause_count (Z.of_nat (S n)) b =
  pause_count (Z.of_nat n) b
  + (if decide (Z.of_nat n `mod` b = 0) then 1 else 0).
Proof.
  intros Hb. unfold pause_count.
  destruct (Z.eqb_spec (Z.of_nat (S n)) 0) as [|_]; [lia|].
  replace (Z.of_nat (S n) - 1) with (Z.of_nat n) by lia.
  destruct (Z.eqb_spec (Z.of_nat n) 0) as [Hz|Hnz].
  - rewrite Hz. rewrite Z.mod_0_l by lia. by rewrite decide_True.
  - rewrite (div_pred_step (Z.of_nat n) b) by lia. lia.
Qed.

(** Among the indices [0 .. n-1], those divisible by [b] are
    [floor((n-1)/b) + 1] many. *)
Lemma count_divisible (n : nat) (b : Z) :
  1 <= b ->
  Z.of_nat (length (filter (fun i => Z.of_nat i `mod` b = 0) (seq 0 n)))
  = pause_count (Z.of_nat n) b.
Proof.
  intros Hb. induction n as [|n IH]; [done|].
  rewrite seq_S, filter_app, length_app, Nat2Z.inj_add, IH.
  rewrite pause_count_succ by done. simpl.
  rewrite filter_cons, filter_nil.
  by destruct (decide (Z.of_nat n `mod` b = 0)).
Qed.

(** ** The runner, one iteration at a time *)

Section RunnerFacts.
Context {W E T : Type}.
Variable settings : Settings.
Variable idle : Suspension -> W -> W.

Implicit Types (p : Producer (W := W) (E := E) (T := T)) (w : W).
Implicit Types (rs : list T) (es : list E) (v : T) (tr : list (Step E T)).

Lemma loop_nil i rs w :
  loop (E := E) settings idle i [] rs w = (Fulfilled rs, w, []).
Proof. done. Qed.

Lemma loop_cons_inv i p ps rs w out w' tr :
  loop settings idle i (p :: ps) rs w = (out, w', tr) ->
  exists promise w1 es,
    p w = (promise, w1, es) /\
    match promise with
    | Fulfilled v =>
        exists tr', loop settings idle (S i) ps (rs ++ [v]) (world_after settings idle i w1)
                    = (out, w', tr')
                    /\ tr = iteration settings i es v ++ tr'
    | Rejected e =>
        out = Rejected e /\ tr = Started i :: map Effect es ++ [Threw i e]
    | Pending =>
        out = Pending /\ tr = Started i :: map Effect es
    end.
Proof.
  simpl. destruct (p w) as [[promise w1] es] eqn:Hp.
  intros Hrun. exists promise, w1, es. split; [done|].
  destruct promise as [v|e|].
  - unfold world_after, iteration, pause_due.
    destruct (rem_is_zero _ _); unfold after in Hrun;
      destruct (loop settings idle (S i) ps _ _) as [[o w2] tr'];
      inversion Hrun; subst; exists tr'; split; try done;
      simpl; by rewrite <- ?app_assoc.
  - by inversion Hrun.
  - by inversion Hrun.
Qed.

(** *** What the readings make of an iteration *)

Lemma omap_effects {A : Type} (f : Step E T -> option A) (es : list E) :
  (forall e, f (Effect e) = None) -> omap f (map Effect es) = [].
Proof.
  intros Hf. induction es as [|e es IH]; [done|].
  simpl. by rewrite Hf.
Qed.

Lemma pauses_iteration i es v :
  pauses (iteration settings i es v) = if pause_due settings i then [i] else [].
Proof.
  unfold pauses, iteration.
  rewrite omap_app. simpl. rewrite omap_app, omap_effects by done.
  by destruct (pause_due settings i).
Qed.

Lemma resolutions_iteration i es v :
  resolutions (iteration settings i es v) = [(i, v)].
Proof.
  unfold resolutions, iteration.
  rewrite omap_app. simpl. rewrite omap_app, omap_effects by done.
  by destruct (pause_due settings i).
Qed.

Lemma starts_iteration i es v : starts (iteration settings i es v) = [i].
Proof.
  unfold starts, iteration.
  rewrite omap_app. simpl. rewrite omap_app, omap_effects by done.
  by destruct (pause_due settings i).
Qed.

Lemma effects_iteration i es v : effects (iteration settings i es v) = es.
Proof.
  assert (omap effect (map (@Effect E T) es) = es) as Hes.
  { induction es as [|e es IH]; [done|]. simpl. f_equal. exact IH. }
  unfold effects, iteration.
  rewrite omap_app.
  change (omap effect (Started i :: map Effect es ++ [@Resolved E T i v]))
    with (omap effect (map Effect es ++ [@Resolved E T i v])).
  rewrite omap_app, Hes. simpl. rewrite app_nil_r.
  destruct (pause_due settings i); simpl; by rewrite app_nil_r.
Qed.

Lemma pauses_app tr1 tr2 : pauses (tr1 ++ tr2) = pauses tr1 ++ pauses tr2.
Proof. apply omap_app. Qed.

Lemma resolutions_app tr1 tr2 :
  resolutions (tr1 ++ tr2) = resolutions tr1 ++ resolutions tr2.
Proof. apply omap_app. Qed.

Lemma starts_app tr1 tr2 : starts (tr1 ++ tr2) = starts tr1 ++ starts tr2.
Proof. apply omap_app. Qed.

Lemma effects_app tr1 tr2 :
  effects (tr1 ++ tr2) = effects tr1 ++ effects tr2.
Proof. apply omap_app. Qed.

(** *** The shape of a whole run *)

(** From index [i] on, the awaits that return are those of
    [i, i+1, ...], without a gap, the results are what they returned, and
    the pauses are after those of them that [pause_due] selects. *)
Lemma loop_shape ps : forall i rs w out w' tr,
  loop settings idle i ps rs w = (out, w', tr) ->
  exists vs : list T,
    (length vs <= length ps)%nat /\
    resolutions tr = zip (seq i (length vs)) vs /\
    pauses tr = filter (fun j => pause_due settings j) (seq i (length vs)) /\
    (forall rs', out = Fulfilled rs' ->
       rs' = rs ++ vs /\ length vs = length ps).
Proof.
  induction ps as [|p ps IH]; intros i rs w out w' tr Hrun.
  - rewrite loop_nil in Hrun. inversion Hrun; subst.
    exists []. split; [done|]. split; [done|]. split; [done|].
    intros rs' [= <-]. by rewrite app_nil_r.
  - apply loop_cons_inv in Hrun as (promise & w1 & es & Hp & Hrest).
    destruct promise as [v|e|].
    + destruct Hrest as (tr' & Hrun' & ->).
      apply IH in Hrun' as (vs & Hlen & Hres & Hpause & Hout).
      exists (v :: vs).
      rewrite resolutions_app, pauses_app, resolutions_iteration,
        pauses_iteration, Hres, Hpause.
      split; [simpl; lia|]. split; [done|]. split.
      * cbn [length seq]. rewrite filter_cons.
        by destruct (pause_due settings i).
      * intros rs' Hrs'. destruct (Hout rs' Hrs') as [-> Hl].
        simpl. rewrite Hl. by rewrite <- app_assoc.
    + destruct Hrest as [-> ->]. exists [].
      split; [simpl; lia|].
      unfold resolutions, pauses. simpl.
      rewrite !omap_app, !omap_effects by done.
      by repeat split.
    + destruct Hrest as [-> ->]. exists [].
      split; [simpl; lia|].
      unfold resolutions, pauses. simpl.
      rewrite !omap_effects by done.
      by repeat split.
Qed.

(** *** What an iteration contains *)

Lemma elem_of_iteration i es v (s : Step E T) :
  s ∈ iteration settings i es v ->
  s = Started i \/ (exists e, s = Effect e) \/ s = Resolved i v
  \/ s = Slept i (waitSeconds settings * 1000)%float.
Proof.
  unfold iteration.
  rewrite elem_of_app, elem_of_cons, elem_of_app, list_elem_of_fmap,
    list_elem_of_singleton.
  intros [[->|[(e & -> & _)| ->]]|Hs]; eauto.
  destruct (pause_due settings i).
  - apply list_elem_of_singleton in Hs. eauto.
  - by apply elem_of_nil in Hs.
Qed.

Lemma resolved_in_iteration i es v : Resolved i v ∈ iteration settings i es v.
Proof.
  unfold iteration.
  rewrite elem_of_app, elem_of_cons, elem_of_app, list_elem_of_singleton.
  eauto.
Qed.

Lemma slept_ends_iteration i es v l1 l2 j ms :
  iteration settings i es v = l1 ++ Slept j ms :: l2 ->
  l1 = Started i :: map Effect es ++ [Resolved i v] /\ j = i.
Proof.
  unfold iteration. intros Heq.
  assert (Slept j ms ∉ Started i :: map Effect es ++ [@Resolved E T i v])
    as Hnot.
  { rewrite elem_of_cons, elem_of_app, list_elem_of_fmap,
      list_elem_of_singleton.
    intros [?|[(e & ? & _)|?]]; discriminate. }
  destruct (pause_due settings i).
  - destruct l2 as [|z l2 _] using rev_ind.
    + apply app_inj_tail in Heq as [<- Hs]. by inversion Hs.
    + replace (l1 ++ Slept j ms :: l2 ++ [z])
        with ((l1 ++ Slept j ms :: l2) ++ [z]) in Heq
        by (by rewrite <- app_assoc).
      apply app_inj_tail in Heq as [Heq _].
      destruct Hnot. rewrite Heq, elem_of_app, elem_of_cons. eauto.
  - rewrite app_nil_r in Heq.
    destruct Hnot. rewrite Heq, elem_of_app, elem_of_cons. eauto.
Qed.

(** *** Indices, order and failure *)

(** A run from index [i] on only mentions indices from [i] on. *)
Lemma loop_indices ps : forall i rs w out w' tr,
  loop settings idle i ps rs w = (out, w', tr) ->
  forall s, s ∈ tr ->
    match s with
    | Started j | Resolved j _ | Threw j _ | Slept j _ => (i <= j)%nat
    | Effect _ => True
    end.
Proof.
  induction ps as [|p ps IH]; intros i rs w out w' tr Hrun s Hs.
  - rewrite loop_nil in Hrun. inversion Hrun; subst.
    by apply elem_of_nil in Hs.
  - apply loop_cons_inv in Hrun as (promise & w1 & es & Hp & Hrest).
    destruct promise as [v|e|].
    + destruct Hrest as (tr' & Hrun' & ->).
      apply elem_of_app in Hs as [Hs|Hs].
      * apply elem_of_iteration in Hs as [->|[[e ->]|[->| ->]]]; done.
      * specialize (IH _ _ _ _ _ _ Hrun' s Hs). destruct s; try done; lia.
    + destruct Hrest as [-> ->].
      rewrite elem_of_cons, elem_of_app, list_elem_of_fmap,
        list_elem_of_singleton in Hs.
      destruct Hs as [->|[(e' & -> & _)| ->]]; done.
    + destruct Hrest as [-> ->].
      rewrite elem_of_cons, list_elem_of_fmap in Hs.
      destruct Hs as [->|(e' & -> & _)]; done.
Qed.

(** Wherever producer [j+1] is called, the await on producer [j] has
    returned before. *)
Lemma loop_order ps : forall i rs w out w' tr,
  loop settings idle i ps rs w = (out, w', tr) ->
  forall l1 l2 j, tr = l1 ++ Started (S j) :: l2 -> (i <= j)%nat ->
    exists v, Resolved j v ∈ l1.
Proof.
  induction ps as [|p ps IH]; intros i rs w out w' tr Hrun l1 l2 j Htr Hij.
  - rewrite loop_nil in Hrun. inversion Hrun; subst.
    by destruct l1.
  - pose proof (loop_indices _ _ _ _ _ _ _ Hrun) as Hidx.
    apply loop_cons_inv in Hrun as (promise & w1 & es & Hp & Hrest).
    destruct promise as [v|e|].
    + destruct Hrest as (tr' & Hrun' & ->).
      symmetry in Htr. apply app_eq_app in Htr as [l [[-> Htr']|[Hit Htr']]].
      * destruct (decide (j = i)) as [->|Hne].
        -- exists v. rewrite elem_of_app. left. apply resolved_in_iteration.
        -- destruct (IH _ _ _ _ _ _ Hrun' l l2 j Htr' ltac:(lia)) as [v' Hv'].
           exists v'. rewrite elem_of_app. by right.
      * destruct l as [|s l].
        -- rewrite app_nil_r in Hit. subst l1. simpl in Htr'.
           destruct (decide (j = i)) as [->|Hne].
           ++ exists v. apply resolved_in_iteration.
           ++ destruct (IH _ _ _ _ _ _ Hrun' [] l2 j (eq_sym Htr')
                          ltac:(lia)) as [v' Hv'].
              by apply elem_of_nil in Hv'.
        -- inversion Htr'; subst s.
           assert (Started (S j) ∈ iteration settings i es v) as Hin.
           { rewrite Hit, elem_of_app, elem_of_cons. eauto. }
           apply elem_of_iteration in Hin as [[=]|[[e [=]]|[[=]|[=]]]]. lia.
    + destruct Hrest as [-> ->].
      assert (Started (S j) ∈ l1 ++ Started (S j) :: l2) as Hin.
      { rewrite elem_of_app, elem_of_cons. eauto. }
      rewrite <- Htr in Hin.
      rewrite elem_of_cons, elem_of_app, list_elem_of_fmap,
        list_elem_of_singleton in Hin.
      destruct Hin as [[=]|[(e' & [=] & _)|[=]]]. lia.
    + destruct Hrest as [-> ->].
      assert (Started (S j) ∈ l1 ++ Started (S j) :: l2) as Hin.
      { rewrite elem_of_app, elem_of_cons. eauto. }
      rewrite <- Htr in Hin.
      rewrite elem_of_cons, list_elem_of_fmap in Hin.
      destruct Hin as [[=]|(e' & [=] & _)]. lia.
Qed.

(** A pause comes directly after the await of the same index
    returned. *)
Lemma loop_pause_after ps : forall i rs w out w' tr,
  loop settings idle i ps rs w = (out, w', tr) ->
  forall l1 l2 j ms, tr = l1 ++ Slept j ms :: l2 ->
    exists l0 v, l1 = l0 ++ [Resolved j v].
Proof.
  induction ps as [|p ps IH]; intros i rs w out w' tr Hrun l1 l2 j ms Htr.
  - rewrite loop_nil in Hrun. inversion Hrun; subst.
    by destruct l1.
  - apply loop_cons_inv in Hrun as (promise & w1 & es & Hp & Hrest).
    destruct promise as [v|e|].
    + destruct Hrest as (tr' & Hrun' & ->).
      symmetry in Htr. apply app_eq_app in Htr as [l [[-> Htr']|[Hit Htr']]].
      * destruct (IH _ _ _ _ _ _ Hrun' l l2 j ms Htr') as (l0 & v' & ->).
        exists (iteration settings i es v ++ l0), v'.
        by rewrite app_assoc.
      * destruct l as [|s l].
        -- simpl in Htr'.
           destruct (IH _ _ _ _ _ _ Hrun' [] l2 j ms (eq_sym Htr'))
             as (l0 & v' & Hnil).
           by destruct l0.
        -- inversion Htr'; subst s.
           apply slept_ends_iteration in Hit as [-> ->].
           by exists (Started i :: map Effect es), v.
    + destruct Hrest as [-> ->].
      assert (Slept j ms ∈ l1 ++ Slept j ms :: l2) as Hin.
      { rewrite elem_of_app, elem_of_cons. eauto. }
      rewrite <- Htr in Hin.
      rewrite elem_of_cons, elem_of_app, list_elem_of_fmap,
        list_elem_of_singleton in Hin.
      by destruct Hin as [[=]|[(e' & [=] & _)|[=]]].
    + destruct Hrest as [-> ->].
      assert (Slept j ms ∈ l1 ++ Slept j ms :: l2) as Hin.
      { rewrite elem_of_app, elem_of_cons. eauto. }
      rewrite <- Htr in Hin.
      rewrite elem_of_cons, list_elem_of_fmap in Hin.
      by destruct Hin as [[=]|(e' & [=] & _)].
Qed.

(** An await that throws ends the run with what it threw, and no later
    producer is called. *)
Lemma loop_threw ps : forall i rs w out w' tr,
  loop settings idle i ps rs w = (out, w', tr) ->
  forall k e, Threw k e ∈ tr ->
    out = Rejected e /\ forall j, (k < j)%nat -> Started j ∉ tr.
Proof.
  induction ps as [|p ps IH]; intros i rs w out w' tr Hrun k e Hk.
  - rewrite loop_nil in Hrun. inversion Hrun; subst.
    by apply elem_of_nil in Hk.
  - apply loop_cons_inv in Hrun as (promise & w1 & es & Hp & Hrest).
    destruct promise as [v|e0|].
    + destruct Hrest as (tr' & Hrun' & ->).
      apply elem_of_app in Hk as [Hk|Hk].
      { by apply elem_of_iteration in Hk as [[=]|[[e' [=]]|[[=]|[=]]]]. }
      pose proof (loop_indices _ _ _ _ _ _ _ Hrun' _ Hk) as Hik.
      destruct (IH _ _ _ _ _ _ Hrun' k e Hk) as [-> Hlater].
      split; [done|]. intros j Hj Hin.
      apply elem_of_app in Hin as [Hin|Hin].
      * apply elem_of_iteration in Hin as [[=]|[[e' [=]]|[[=]|[=]]]].
        simpl in Hik. lia.
      * by apply (Hlater j Hj).
    + destruct Hrest as [-> ->].
      rewrite elem_of_cons, elem_of_app, list_elem_of_fmap,
        list_elem_of_singleton in Hk.
      destruct Hk as [[=]|[(e' & [=] & _)|[= -> ->]]].
      split; [done|]. intros j Hj.
      rewrite elem_of_cons, elem_of_app, list_elem_of_fmap,
        list_elem_of_singleton.
      intros [[=]|[(e' & [=] & _)|[=]]]. lia.
    + destruct Hrest as [-> ->].
      rewrite elem_of_cons, list_elem_of_fmap in Hk.
      by destruct Hk as [[=]|(e' & [=] & _)].
Qed.

(** A run that is rejected threw at its last step. *)
Lemma loop_rejected ps : forall i rs w e w' tr,
  loop settings idle i ps rs w = (Rejected e, w', tr) ->
  exists k tr0, tr = tr0 ++ [Threw k e].
Proof.
  induction ps as [|p ps IH]; intros i rs w e w' tr Hrun.
  - rewrite loop_nil in Hrun. by inversion Hrun.
  - apply loop_cons_inv in Hrun as (promise & w1 & es & Hp & Hrest).
    destruct promise as [v|e0|].
    + destruct Hrest as (tr' & Hrun' & ->).
      destruct (IH _ _ _ _ _ _ Hrun') as (k & tr0 & ->).
      exists k, (iteration settings i es v ++ tr0). by rewrite app_assoc.
    + destruct Hrest as [[= ->] ->].
      by exists i, (Started i :: map Effect es).
    + by destruct Hrest as [[=] _].
Qed.

(** The results of a run that is fulfilled are what the producers'
    promises were fulfilled with, producer by producer. *)
Lemma loop_results ps : forall i rs w rs' w' tr,
  loop settings idle i ps rs w = (Fulfilled rs', w', tr) ->
  exists vs, rs' = rs ++ vs /\
    Forall2 (fun p v => exists w0 w1 es, p w0 = (Fulfilled v, w1, es)) ps vs.
Proof.
  induction ps as [|p ps IH]; intros i rs w rs' w' tr Hrun.
  - rewrite loop_nil in Hrun. inversion Hrun; subst.
    exists []. by rewrite app_nil_r.
  - apply loop_cons_inv in Hrun as (promise & w1 & es & Hp & Hrest).
    destruct promise as [v|e0|].
    + destruct Hrest as (tr' & Hrun' & ->).
      destruct (IH _ _ _ _ _ _ Hrun') as (vs & -> & Hall).
      exists (v :: vs). rewrite <- app_assoc. split; [done|].
      constructor; eauto.
    + by destruct Hrest as [[=] _].
    + by destruct Hrest as [[=] _].
Qed.
(** The producers are called in the order of the array, from its
    first on, none left out. *)
Lemma loop_starts ps : forall i rs w out w' tr,
  loop settings idle i ps rs w = (out, w', tr) ->
  exists m, (m <= length ps)%nat /\ starts tr = seq i m.
Proof.
  induction ps as [|p ps IH]; intros i rs w out w' tr Hrun.
  - rewrite loop_nil in Hrun. inversion Hrun; subst. by exists 0%nat.
  - apply loop_cons_inv in Hrun as (promise & w1 & es & Hp & Hrest).
    destruct promise as [v|e|].
    + destruct Hrest as (tr' & Hrun' & ->).
      destruct (IH _ _ _ _ _ _ Hrun') as (m & Hm & Hstarts).
      exists (S m). split; [simpl; lia|].
      by rewrite starts_app, starts_iteration, Hstarts.
    + destruct Hrest as [-> ->]. exists 1%nat. split; [simpl; lia|].
      unfold starts. simpl. by rewrite omap_app, omap_effects.
    + destruct Hrest as [-> ->]. exists 1%nat. split; [simpl; lia|].
      unfold starts. simpl. by rewrite omap_effects.
Qed.

(** An await throws only what the producer of that index was rejected
    with. *)
Lemma loop_threw_producer ps : forall i rs w out w' tr,
  loop settings idle i ps rs w = (out, w', tr) ->
  forall k e, Threw k e ∈ tr ->
    exists p w0 w1 es,
      ps !! (k - i)%nat = Some p /\ p w0 = (Rejected e, w1, es).
Proof.
  induction ps as [|p ps IH]; intros i rs w out w' tr Hrun k e Hk.
  - rewrite loop_nil in Hrun. inversion Hrun; subst.
    by apply elem_of_nil in Hk.
  - apply loop_cons_inv in Hrun as (promise & w1 & es & Hp & Hrest).
    destruct promise as [v|e0|].
    + destruct Hrest as (tr' & Hrun' & ->).
      apply elem_of_app in Hk as [Hk|Hk].
      { by apply elem_of_iteration in Hk as [[=]|[[e' [=]]|[[=]|[=]]]]. }
      pose proof (loop_indices _ _ _ _ _ _ _ Hrun' _ Hk) as Hik.
      destruct (IH _ _ _ _ _ _ Hrun' k e Hk) as (q & w0 & w2 & es' & Hq & Hq').
      exists q, w0, w2, es'. split; [|done].
      simpl in Hik. by replace (k - i)%nat with (S (k - S i)) by lia.
    + destruct Hrest as [-> ->].
      rewrite elem_of_cons, elem_of_app, list_elem_of_fmap,
        list_elem_of_singleton in Hk.
      destruct Hk as [[=]|[(e' & [=] & _)|[= -> ->]]].
      exists p, w, w1, es. by rewrite Nat.sub_diag.
    + destruct Hrest as [-> ->].
      rewrite elem_of_cons, list_elem_of_fmap in Hk.
      by destruct Hk as [[=]|(e' & [=] & _)].
Qed.

(** Producers that are fulfilled wherever they are called make a run
    that is fulfilled. *)
Lemma loop_fulfilled ps : forall i rs w,
  Forall (fun p => forall w0, exists v w1 es, p w0 = (Fulfilled v, w1, es)) ps ->
  exists rs' w' tr, loop settings idle i ps rs w = (Fulfilled rs', w', tr).
Proof.
  induction ps as [|p ps IH]; intros i rs w Hall.
  - by exists rs, w, [].
  - apply Forall_cons in Hall as [Hp Hall].
    destruct (Hp w) as (v & w1 & es & Hpw).
    destruct (IH (S i) (rs ++ [v]) (world_after settings idle i w1) Hall)
      as (rs' & w' & tr' & Hrun').
    exists rs', w', (iteration settings i es v ++ tr').
    simpl. rewrite Hpw.
    unfold world_after, pause_due in Hrun'. unfold iteration, pause_due.
    destruct (rem_is_zero _ _); rewrite Hrun'; simpl;
      by rewrite <- ?app_assoc.
Qed.
End RunnerFacts.

(** ** The runner as a whole *)

Section RunSequential.
Context {W E T : Type}.
Variable settings : Settings.
Variable idle : Suspension -> W -> W.
Implicit Types (ps : list (Producer (W := W) (E := E) (T := T))) (w : W).
Implicit Types (rs : list T) (tr : list (Step E T)).

(** For [waitAfter >= 1] the test [i % waitAfter === 0] is
    divisibility. *)
Lemma filter_pause_due (l : list nat) :
  1 <= waitAfter settings ->
  filter (fun j => pause_due settings j) l
  = filter (fun j => Z.of_nat j `mod` waitAfter settings = 0) l.
Proof.
  intros Hb. apply list_filter_iff. intros j.
  unfold pause_due. rewrite rem_is_zero_mod by done.
  by rewrite bool_decide_spec.
Qed.

(** The cadence of any run: with [k] the number of awaits that
    returned, the pauses are after the indices below [k] that
    [waitAfter] divides. *)
Lemma cadence_of_any_run ps w out w' tr :
  1 <= waitAfter settings ->
  runSequential settings idle ps w = (out, w', tr) ->
  let k := length (resolutions tr) in
  (k <= length ps)%nat
  /\ pauses tr
     = filter (fun i => Z.of_nat i `mod` waitAfter settings = 0) (seq 0 k)
  /\ Z.of_nat (length (pauses tr))
     = pause_count (Z.of_nat k) (waitAfter settings)
  /\ (forall rs, out = Fulfilled rs -> k = length ps).
Proof.
  intros Hb Hrun.
  apply loop_shape in Hrun as (vs & Hlen & Hres & Hpause & Hout).
  assert (length (resolutions tr) = length vs) as Hk.
  { rewrite Hres, length_zip_with, length_seq. lia. }
  cbv zeta. rewrite Hk, Hpause, filter_pause_due by done.
  split; [done|]. split; [done|]. split.
  - by apply count_divisible.
  - intros rs Hrs. by destruct (Hout rs Hrs).
Qed.
End RunSequential.

(** ** Claims about the runner *)

(** C1, as stated, is false: a producer list of length 1 whose only
    producer is rejected gives no pause, where the claim counts
    [floor(0/5) + 1 = 1]. *)
Lemma rejected_producer_no_pause :
  let ps : list (Producer (W := unit) (E := Event) (T := JsValue)) :=
    [fun w => (Rejected "429"%string, w, [])] in
  let tr := (runSequential default_settings (fun _ w => w) ps ()).2 in
  Z.of_nat (length (pauses tr))
  <> pause_count (Z.of_nat (length ps)) (waitAfter default_settings).
Proof. vm_compute. discriminate. Qed.

(** C1, amended.  For every pacing policy with [waitAfter = b >= 1] and
    every list of [n] producers whose operations are all fulfilled, so that
    the call is fulfilled, [runSequential] pauses exactly
    [floor((n-1)/b) + 1] times when [n >= 1] and never when [n = 0]: it
    pauses after the indices [i] with [i mod b = 0] and no others, each
    time directly after the await of that index returned. *)
Theorem runSequential_pauses {W E T : Type} (settings : Settings)
    (idle : Suspension -> W -> W)
    (ps : list (Producer (W := W) (E := E) (T := T))) (w w' : W)
    (rs : list T) (tr : list (Step E T)) :
  1 <= waitAfter settings ->
  runSequential settings idle ps w = (Fulfilled rs, w', tr) ->
  Z.of_nat (length (pauses tr))
  = pause_count (Z.of_nat (length ps)) (waitAfter settings)
  /\ pauses tr
     = filter (fun i => Z.of_nat i `mod` waitAfter settings = 0)
              (seq 0 (length ps))
  /\ (forall l1 l2 i ms, tr = l1 ++ Slept i ms :: l2 ->
        exists l0 v, l1 = l0 ++ [Resolved i v]).
Proof.
  intros Hb Hrun.
  destruct (cadence_of_any_run settings idle ps w _ w' tr Hb Hrun)
    as (_ & Hpauses & Hcount & Hall).
  rewrite (Hall rs eq_refl) in Hpauses, Hcount.
  split; [done|]. split; [done|].
  intros l1 l2 i ms Htr. by eapply loop_pause_after.
Qed.

(** Seven fulfilled producers under the default policy: pauses after
    indices 0 and 5. *)
Lemma runSequential_pauses_witness :
  let ps : list (Producer (W := unit) (E := Event) (T := JsValue)) :=
    replicate 7 (fun w => (Fulfilled JNull, w, [])) in
  let tr := (runSequential default_settings (fun _ w => w) ps ()).2 in
  Z.of_nat (length (pauses tr)) = 2 /\ pauses tr = [0; 5]%nat.
Proof.
  intros ps tr.
  destruct (runSequential_pauses default_settings (fun _ w => w) ps () ()
              (replicate 7 JNull) tr) as (Hcount & Hpauses & _).
  - vm_compute. discriminate.
  - reflexivity.
  - split; [exact Hcount | exact Hpauses].
Defined.

(** C2.  [runSequential] calls the producers in the order of the array,
    producer [i+1] only after the await on producer [i] has returned; and
    when the call is fulfilled, its results are one per producer, in the
    producers' order: the result at position [i] is what the await of
    index [i] returned, which is what the promise of producer [i] was
    fulfilled with. *)
Theorem runSequential_in_order {W E T : Type} (settings : Settings)
    (idle : Suspension -> W -> W)
    (ps : list (Producer (W := W) (E := E) (T := T))) (w w' : W)
    (out : Settled (list T)) (tr : list (Step E T)) :
  runSequential settings idle ps w = (out, w', tr) ->
  starts tr = seq 0 (length (starts tr))
  /\ (forall l1 l2 i, tr = l1 ++ Started (S i) :: l2 ->
        exists v, Resolved i v ∈ l1)
  /\ (forall rs, out = Fulfilled rs ->
        length rs = length ps
        /\ resolutions tr = zip (seq 0 (length ps)) rs
        /\ Forall2 (fun p v => exists w0 w1 es, p w0 = (Fulfilled v, w1, es))
                   ps rs).
Proof.
  intros Hrun. split; [|split].
  - destruct (loop_starts _ _ _ _ _ _ _ _ _ Hrun) as (m & _ & ->).
    by rewrite length_seq.
  - intros l1 l2 i Htr.
    eapply loop_order; [exact Hrun | exact Htr | lia].
  - intros rs ->.
    destruct (loop_shape _ _ _ _ _ _ _ _ _ Hrun) as (vs & _ & Hres & _ & Hout).
    destruct (Hout rs eq_refl) as [Hrs Hlen]. simpl in Hrs. subst vs.
    destruct (loop_results _ _ _ _ _ _ _ _ _ Hrun) as (vs & Hvs & Hall).
    simpl in Hvs. subst vs.
    rewrite Hlen in Hres. by repeat split.
Qed.

(** Two producers, fulfilled with different values. *)
Lemma runSequential_in_order_witness :
  let ps : list (Producer (W := unit) (E := Event) (T := JsValue)) :=
    [fun w => (Fulfilled (JBool true), w, []);
     fun w => (Fulfilled (JBool false), w, [])] in
  let tr := (runSequential default_settings (fun _ w => w) ps ()).2 in
  resolutions tr = [(0%nat, JBool true); (1%nat, JBool false)].
Proof.
  intros ps tr.
  destruct (runSequential_in_order default_settings (fun _ w => w) ps () ()
              (Fulfilled [JBool true; JBool false]) tr eq_refl)
    as (_ & _ & Hres).
  destruct (Hres _ eq_refl) as (_ & Hzip & _). exact Hzip.
Defined.

(** C6 fails on the code: under the default policy ([waitAfter = 5], not
    1) a single producer that is fulfilled is followed by a pause. *)
Theorem runSequential_single_default :
  let ps : list (Producer (W := unit) (E := Event) (T := JsValue)) :=
    [fun w => (Fulfilled JNull, w, [])] in
  waitAfter default_settings = 5
  /\ (runSequential default_settings (fun _ w => w) ps ()).2
     = [Started 0; Resolved 0 JNull; Slept 0 (2 * 1000)%float].
Proof. split; reflexivity. Qed.

(** The same for every policy: index 0 is always followed by a pause,
    whatever [waitAfter] is, as long as it is not 0. *)
Lemma single_producer_pauses {W E T : Type} (settings : Settings)
    (idle : Suspension -> W -> W) (p : Producer (W := W) (E := E) (T := T))
    (w w1 : W) (v : T) (es : list E) :
  waitAfter settings <> 0 ->
  p w = (Fulfilled v, w1, es) ->
  pauses (runSequential settings idle [p] w).2 = [0%nat].
Proof.
  intros Hb Hp. unfold runSequential.
  destruct (loop settings idle 0 [p] [] w) as [[out w'] tr] eqn:Hrun.
  apply loop_cons_inv in Hrun as (promise & w2 & es' & Hp' & Hrest).
  rewrite Hp in Hp'. inversion Hp'; subst promise w2 es'.
  destruct Hrest as (tr' & Hnil & ->).
  rewrite loop_nil in Hnil. inversion Hnil; subst.
  cbn [snd]. rewrite app_nil_r, pauses_iteration.
  unfold pause_due, rem_is_zero.
  by destruct (Z.eqb_spec (waitAfter settings) 0).
Qed.

(** ** The dispatcher *)

Section SendPatch.
Variable settings : Settings.
Variable idle : Suspension -> Host -> Host.
Variable channel : Channel.
Variable patch : list (string * JsValue).

Lemma getVoiceStates_run includeSelf h :
  Plugin.getVoiceStates channel includeSelf h
  = (roster includeSelf channel h, h, [GetVoiceStatesForChannel (id channel)]).
Proof. reflexivity. Qed.

Lemma member_request_for userVoice :
  member_request channel patch userVoice
  = request_for channel patch (userId userVoice).
Proof. reflexivity. Qed.

(** [sendPatch] is one read of the store, one run of the runner over the
    producers made from what was read, and the [catch]. *)
Lemma sendPatch_inv includeSelf h out h' tr :
  Plugin.sendPatch settings idle channel patch includeSelf h = (out, h', tr) ->
  exists p tr_run,
    runSequential settings idle
      (Plugin.patch_producers channel patch (roster includeSelf channel h)) h
    = (p, h', tr_run)
    /\ out = (catch p (console.error "VoiceChatUtilities failed to run")).1
    /\ tr = Effect (GetVoiceStatesForChannel (id channel))
            :: tr_run
            ++ map Effect
                 (catch p (console.error "VoiceChatUtilities failed to run")).2.
Proof.
  unfold Plugin.sendPatch, and_then. rewrite getVoiceStates_run.
  destruct (runSequential _ _ _ _) as [[p h1] tr_run].
  destruct (catch p _) as [p' es] eqn:Hcatch.
  intros [= <- <- <-]. exists p, tr_run. by rewrite Hcatch.
Qed.

(** The producers of [sendPatch] send their requests in order: what has
    gone out at any end of the run is a first part of the batch, and all
    of it when the run is fulfilled. *)
Lemma loop_patch_effects us : forall i rs h out h' tr,
  loop settings idle i (Plugin.patch_producers channel patch us) rs h
  = (out, h', tr) ->
  exists k,
    effects tr = RestPatch <$> take k (member_request channel patch <$> us)
    /\ (forall rs', out = Fulfilled rs' -> k = length us).
Proof.
  induction us as [|u us IH]; intros i rs h out h' tr Hrun.
  - change (Plugin.patch_producers channel patch []) with
      (@nil (Producer (W := Host) (E := Event) (T := JsValue))) in Hrun.
    rewrite loop_nil in Hrun. inversion Hrun; subst. by exists 0%nat.
  - change (Plugin.patch_producers channel patch (u :: us)) with
      (RestAPI.patch (member_request channel patch u)
         :: Plugin.patch_producers channel patch us) in Hrun.
    apply loop_cons_inv in Hrun as (promise & h1 & es & Hp & Hrest).
    unfold RestAPI.patch in Hp. inversion Hp; subst es.
    destruct promise as [v|e|].
    + destruct Hrest as (tr' & Hrun' & ->).
      destruct (IH _ _ _ _ _ _ Hrun') as (k & Heff & Hall).
      exists (S k). rewrite effects_app, effects_iteration, Heff.
      split; [done|]. intros rs' Hrs'. simpl. by rewrite (Hall rs' Hrs').
    + destruct Hrest as [-> ->]. exists 1%nat. split; [|done].
      reflexivity.
    + destruct Hrest as [-> ->]. exists 1%nat. split; [|done].
      reflexivity.
Qed.

Lemma requests_of_patches (rs : list Request) :
  omap patch_request (RestPatch <$> rs) = rs.
Proof. induction rs as [|r rs IH]; [done|]. simpl. by f_equal. Qed.

Lemma sendPatch_requests includeSelf h out h' tr :
  Plugin.sendPatch settings idle channel patch includeSelf h = (out, h', tr) ->
  exists k,
    requests tr
    = take k (member_request channel patch <$> roster includeSelf channel h)
    /\ (forall rs, out = Fulfilled (Some rs) ->
          k = length (roster includeSelf channel h)).
Proof.
  intros Hsend.
  apply sendPatch_inv in Hsend as (p & tr_run & Hrun & -> & ->).
  destruct (loop_patch_effects _ _ _ _ _ _ _ Hrun) as (k & Heff & Hall).
  exists k. split.
  - unfold requests.
    change (effects (Effect (GetVoiceStatesForChannel (id channel))
                       :: tr_run ++ map Effect _))
      with (GetVoiceStatesForChannel (id channel)
              :: effects (tr_run ++ map Effect
                   (catch p (console.error "VoiceChatUtilities failed to run")).2)).
    rewrite effects_app, Heff. simpl.
    rewrite omap_app, requests_of_patches.
    destruct p; simpl; by rewrite app_nil_r.
  - intros rs Hrs. destruct p as [vs|e|]; simpl in Hrs; try done.
    by apply (Hall vs).
Qed.
End SendPatch.

(** ** What the producers' promises make of a run *)

Section RunnerOutcome.
Context {W E T : Type}.
Variable settings : Settings.
Variable idle : Suspension -> W -> W.
Implicit Types (ps : list (Producer (W := W) (E := E) (T := T))) (w : W).
Implicit Types (rs : list T) (tr : list (Step E T)).

(** [Inv n] is what is known of the world when [n] producers have been
    called; the rest of the client keeps it. *)
Variable Inv : nat -> W -> Prop.
Hypothesis idle_Inv : forall s n w, Inv n w -> Inv n (idle s w).

Lemma world_after_Inv i n w : Inv n w -> Inv n (world_after settings idle i w).
Proof.
  intros Hw. unfold world_after.
  destruct (pause_due settings i); auto.
Qed.

Lemma loop_cons_fulfilled i p ps rs w v w1 (es : list E) :
  p w = (Fulfilled v, w1, es) ->
  loop settings idle i (p :: ps) rs w
  = after (iteration settings i es v)
      (loop settings idle (S i) ps (rs ++ [v])
         (world_after settings idle i w1)).
Proof.
  intros Hp. simpl. rewrite Hp.
  unfold world_after, iteration, pause_due.
  destruct (rem_is_zero _ _);
    destruct (loop settings idle (S i) ps _ _) as [[o w2] tr'];
    simpl; by rewrite <- ?app_assoc.
Qed.

Lemma loop_cons_rejected i p ps rs w e w1 (es : list E) :
  p w = (Rejected e, w1, es) ->
  loop settings idle i (p :: ps) rs w
  = (Rejected e, idle (AwaitPromise i) w1,
     Started i :: map Effect es ++ [Threw i e]).
Proof. intros Hp. simpl. by rewrite Hp. Qed.

(** The first producer whose promise is rejected ends the run: the
    producers up to it have been called, in order, and none after it. *)
Lemma loop_first_rejection ps : forall i rs w k p e,
  Inv i w ->
  ps !! k = Some p ->
  (forall j q w0, (j < k)%nat -> ps !! j = Some q -> Inv (i + j) w0 ->
     exists v w1 es, q w0 = (Fulfilled v, w1, es) /\ Inv (S (i + j)) w1) ->
  (forall w0, Inv (i + k) w0 -> exists w1 es, p w0 = (Rejected e, w1, es)) ->
  exists w' tr0,
    loop settings idle i ps rs w = (Rejected e, w', tr0 ++ [Threw (i + k) e])
    /\ starts tr0 = seq i (S k)
    /\ fst <$> resolutions tr0 = seq i k
    /\ pauses tr0 = filter (fun j => pause_due settings j) (seq i k).
Proof.
  induction ps as [|p0 ps IH]; intros i rs w k p e Hw Hk Hbefore Hrej;
    [done|].
  destruct k as [|k].
  - injection Hk as ->. rewrite Nat.add_0_r in Hrej.
    destruct (Hrej w Hw) as (w1 & es & Hp).
    rewrite (loop_cons_rejected _ _ _ _ _ _ _ _ Hp).
    exists (idle (AwaitPromise i) w1), (Started i :: map Effect es).
    rewrite Nat.add_0_r. split; [reflexivity|].
    unfold starts, resolutions, pauses. simpl.
    by rewrite !omap_effects.
  - destruct (Hbefore 0%nat p0 w ltac:(lia) eq_refl)
      as (v & w1 & es & Hp & Hw1); [by rewrite Nat.add_0_r|].
    rewrite Nat.add_0_r in Hw1.
    rewrite (loop_cons_fulfilled _ _ _ _ _ _ _ _ Hp).
    destruct (IH (S i) (rs ++ [v]) (world_after settings idle i w1) k p e)
      as (w' & tr0 & -> & Hstarts & Hres & Hpauses).
    + by apply world_after_Inv.
    + exact Hk.
    + intros j q w0 Hj Hq Hw0.
      replace (S i + j)%nat with (i + S j)%nat in * by lia.
      apply (Hbefore (S j) q w0); [lia|done..].
    + intros w0 Hw0. apply Hrej.
      by replace (i + S k)%nat with (S i + k)%nat by lia.
    + exists w', (iteration settings i es v ++ tr0).
      replace (i + S k)%nat with (S i + k)%nat by lia.
      split; [unfold after; by rewrite app_assoc|].
      rewrite starts_app, starts_iteration, resolutions_app,
        resolutions_iteration, pauses_app, pauses_iteration, fmap_app,
        Hstarts, Hres, Hpauses.
      split; [done|]. split; [done|].
      cbn [seq]. rewrite filter_cons.
      by destruct (pause_due settings i).
Qed.

(** Producers whose promises are all fulfilled give a fulfilled run. *)
Lemma loop_all_fulfilled ps : forall i rs w,
  Inv i w ->
  (forall j q w0, ps !! j = Some q -> Inv (i + j) w0 ->
     exists v w1 es, q w0 = (Fulfilled v, w1, es) /\ Inv (S (i + j)) w1) ->
  exists rs' w' tr,
    loop settings idle i ps rs w = (Fulfilled rs', w', tr)
    /\ Inv (i + length ps) w'.
Proof.
  induction ps as [|p0 ps IH]; intros i rs w Hw Hall.
  - exists rs, w, []. rewrite Nat.add_0_r. by split.
  - destruct (Hall 0%nat p0 w eq_refl) as (v & w1 & es & Hp & Hw1);
      [by rewrite Nat.add_0_r|].
    rewrite Nat.add_0_r in Hw1.
    rewrite (loop_cons_fulfilled _ _ _ _ _ _ _ _ Hp).
    destruct (IH (S i) (rs ++ [v]) (world_after settings idle i w1))
      as (rs' & w' & tr & -> & Hw').
    + by apply world_after_Inv.
    + intros j q w0 Hq Hw0.
      replace (S i + j)%nat with (i + S j)%nat in * by lia.
      by apply (Hall (S j) q w0).
    + exists rs', w', (iteration settings i es v ++ tr).
      split; [done|].
      by replace (i + length (p0 :: ps))%nat
        with (S i + length ps)%nat by (simpl; lia).
Qed.
End RunnerOutcome.

Lemma elem_of_starts {E T : Type} (tr : list (Step E T)) (j : nat) :
  Started j ∈ tr <-> j ∈ starts tr.
Proof.
  unfold starts. rewrite list_elem_of_omap. split.
  - intros Hin. by exists (Started j).
  - intros (s & Hin & Hs). destruct s; simplify_eq/=. done.
Qed.

(** ** The service's answers and the batch *)

Section Service.
Variable settings : Settings.
Variable idle : Suspension -> Host -> Host.
Variable channel : Channel.
Variable patch : list (string * JsValue).
Hypothesis idle_service : leaves_service idle.

(** What is known of the client when [n] requests of [batch] have gone
    out: the service is the one of [h], and it has seen those
    requests. *)
Lemma patch_producer_step (h : Host) (us : list VoiceState) (j : nat) q h0 :
  Plugin.patch_producers channel patch us !! j = Some q ->
  answer h0 = answer h ->
  patched h0 = patched h ++ take j (member_request channel patch <$> us) ->
  exists r h1,
    (member_request channel patch <$> us) !! j = Some r
    /\ q h0 = (answer h (patched h ++ take j (member_request channel patch <$> us)) r,
               h1, [RestPatch r])
    /\ answer h1 = answer h
    /\ patched h1
       = patched h ++ take (S j) (member_request channel patch <$> us).
Proof.
  intros Hq Hanswer Hlog.
  unfold Plugin.patch_producers in Hq.
  change (map ?f us) with (f <$> us) in Hq.
  rewrite list_lookup_fmap in Hq.
  destruct (us !! j) as [u|] eqn:Hu; [|done]. injection Hq as <-.
  exists (member_request channel patch u).
  eexists. split; [by rewrite list_lookup_fmap, Hu|].
  unfold RestAPI.patch. rewrite Hanswer, Hlog.
  split; [reflexivity|]. split; [done|]. simpl.
  rewrite <- app_assoc. f_equal.
  erewrite take_S_r; [done|]. by rewrite list_lookup_fmap, Hu.
Qed.

Lemma loop_patch_count (us : list VoiceState) : forall i rs h0 out h' tr,
  loop settings idle i (Plugin.patch_producers channel patch us) rs h0
  = (out, h', tr) ->
  length (effects tr) = length (starts tr).
Proof.
  induction us as [|u us IH]; intros i rs h0 out h' tr Hrun.
  - change (Plugin.patch_producers channel patch []) with
      (@nil (Producer (W := Host) (E := Event) (T := JsValue))) in Hrun.
    rewrite loop_nil in Hrun. by inversion Hrun.
  - change (Plugin.patch_producers channel patch (u :: us))
      with (RestAPI.patch (member_request channel patch u)
              :: Plugin.patch_producers channel patch us) in Hrun.
    apply loop_cons_inv in Hrun as (promise & w1 & es & Hp & Hrest).
    unfold RestAPI.patch in Hp. injection Hp as <- <- <-.
    destruct (answer h0 (patched h0) (member_request channel patch u))
      as [v|e|].
    + destruct Hrest as (tr' & Hrun' & ->).
      rewrite effects_app, starts_app, effects_iteration, starts_iteration,
        !length_app, (IH _ _ _ _ _ _ Hrun'). done.
    + by destruct Hrest as [-> ->].
    + by destruct Hrest as [-> ->].
Qed.
End Service.

Lemma batch_as_member_requests channel patch (us : list VoiceState) :
  request_for channel patch <$> (userId <$> us)
  = member_request channel patch <$> us.
Proof. by rewrite <- list_fmap_compose. Qed.

Lemma logged_of_patches (rs : list Request) :
  omap (fun e => match e with
                 | ConsoleError _ error => Some error
                 | _ => None
                 end) (RestPatch <$> rs) = [].
Proof. induction rs as [|r rs IH]; [done|]. simpl. exact IH. Qed.

Lemma take_of_length {A : Type} (l : list A) (k n : nat) :
  length (take k l) = n -> take k l = take n l.
Proof.
  intros <-. rewrite length_take.
  destruct (decide (k <= length l)%nat).
  - by rewrite Nat.min_l by done.
  - rewrite Nat.min_r by lia. by rewrite !take_ge by lia.
Qed.

(** A batch in which the service rejects request [k], having fulfilled
    the requests before it: the requests up to [k] go out and no other,
    the await on request [k] throws, and the error is logged as the last
    step; the promise that is left is fulfilled. *)
Lemma sendPatch_rejected_at settings idle channel patch includeSelf h k e :
  leaves_service idle ->
  reply h (request_for channel patch
             <$> (userId <$> roster includeSelf channel h)) k
  = Some (Rejected e) ->
  (forall j, (j < k)%nat ->
     exists v, reply h (request_for channel patch
                          <$> (userId <$> roster includeSelf channel h)) j
               = Some (Fulfilled v)) ->
  exists h' tr0,
    Plugin.sendPatch settings idle channel patch includeSelf h
    = (Fulfilled None, h',
       tr0 ++ [Threw k e;
               Effect (ConsoleError "VoiceChatUtilities failed to run" e)])
    /\ requests tr0
       = take (S k) (request_for channel patch
                       <$> (userId <$> roster includeSelf channel h))
    /\ starts tr0 = seq 0 (S k)
    /\ pauses tr0 = filter (fun j => pause_due settings j) (seq 0 k)
    /\ logged tr0 = [].
Proof.
  intros Hidle. rewrite batch_as_member_requests.
  set (us := roster includeSelf channel h).
  set (batch := member_request channel patch <$> us).
  intros Hk Hbefore.
  unfold reply in Hk.
  destruct (batch !! k) as [r|] eqn:Hr; [|done].
  injection Hk as Hk.
  assert (exists u, us !! k = Some u /\ r = member_request channel patch u)
    as (u & Hu & ->).
  { unfold batch in Hr. rewrite list_lookup_fmap in Hr.
    destruct (us !! k) as [u|]; [|done]. injection Hr as <-. by exists u. }
  destruct (loop_first_rejection settings idle
              (fun n h0 => answer h0 = answer h
                           /\ patched h0 = patched h ++ take n batch)
              ltac:(intros s n w [Ha Hp]; destruct (Hidle s w) as [-> ->];
                    by split)
              (Plugin.patch_producers channel patch us) 0%nat [] h k
              (RestAPI.patch (member_request channel patch u)) e)
    as (h' & tr0 & Hrun & Hstarts & _ & Hpauses).
  - split; [done|]. by rewrite take_0, app_nil_r.
  - unfold Plugin.patch_producers.
    change (map ?f us) with (f <$> us).
    by rewrite list_lookup_fmap, Hu.
  - intros j q h0 Hj Hq [Ha Hp].
    destruct (patch_producer_step channel patch h us j q h0 Hq Ha Hp)
      as (r' & h1 & Hr' & -> & Ha1 & Hp1).
    destruct (Hbefore j Hj) as [v Hv].
    unfold reply in Hv. fold batch in Hr'. rewrite Hr' in Hv.
    injection Hv as Hv. fold batch. rewrite Hv.
    exists v, h1, [RestPatch r']. by repeat split.
  - intros h0 [Ha Hp]. simpl in Ha, Hp.
    unfold RestAPI.patch. rewrite Ha, Hp, Hk. eauto.
  - simpl in Hrun.
    exists h', (Effect (GetVoiceStatesForChannel (id channel)) :: tr0).
    split.
    { unfold Plugin.sendPatch, and_then. rewrite getVoiceStates_run.
      fold us. unfold runSequential. rewrite Hrun. simpl.
      by rewrite <- app_assoc. }
    pose proof (loop_patch_effects settings idle channel patch us
                  _ _ _ _ _ _ Hrun) as (k' & Heff & _).
    pose proof (loop_patch_count settings idle channel patch us
                  _ _ _ _ _ _ Hrun) as Hcount.
    rewrite effects_app in Heff.
    rewrite effects_app, starts_app, !length_app in Hcount.
    change (effects [Threw k e]) with (@nil Event) in Heff, Hcount.
    change (starts [@Threw Event JsValue k e]) with (@nil nat) in Hcount.
    rewrite app_nil_r in Heff. simpl in Hcount.
    rewrite !Nat.add_0_r, Heff, length_fmap, Hstarts, length_seq in Hcount.
    fold batch in Heff, Hcount.
    apply take_of_length in Hcount. rewrite Hcount in Heff.
    split; [|split; [|split]].
    + unfold requests.
      change (effects (Effect (GetVoiceStatesForChannel (id channel)) :: tr0))
        with (GetVoiceStatesForChannel (id channel) :: effects tr0).
      rewrite Heff. simpl. apply requests_of_patches.
    + exact Hstarts.
    + exact Hpauses.
    + unfold logged.
      change (effects (Effect (GetVoiceStatesForChannel (id channel)) :: tr0))
        with (GetVoiceStatesForChannel (id channel) :: effects tr0).
      rewrite Heff. simpl. apply logged_of_patches.
Qed.

(** A batch in which the service fulfils every request goes through:
    every request goes out, one result comes back for each, and nothing
    is logged. *)
Lemma sendPatch_all_fulfilled settings idle channel patch includeSelf h :
  leaves_service idle ->
  (forall j,
     (j < length (roster includeSelf channel h))%nat ->
     exists v, reply h (request_for channel patch
                          <$> (userId <$> roster includeSelf channel h)) j
               = Some (Fulfilled v)) ->
  exists rs h' tr,
    Plugin.sendPatch settings idle channel patch includeSelf h
    = (Fulfilled (Some rs), h', tr)
    /\ requests tr
       = request_for channel patch
           <$> (userId <$> roster includeSelf channel h)
    /\ length rs = length (roster includeSelf channel h)
    /\ logged tr = [].
Proof.
  intros Hidle. rewrite batch_as_member_requests.
  set (us := roster includeSelf channel h).
  set (batch := member_request channel patch <$> us).
  intros Hall.
  destruct (loop_all_fulfilled settings idle
              (fun n h0 => answer h0 = answer h
                           /\ patched h0 = patched h ++ take n batch)
              ltac:(intros s n w [Ha Hp]; destruct (Hidle s w) as [-> ->];
                    by split)
              (Plugin.patch_producers channel patch us) 0%nat [] h)
    as (rs & h' & tr & Hrun & _).
  - split; [done|]. by rewrite take_0, app_nil_r.
  - intros j q h0 Hq [Ha Hp]. simpl in Ha, Hp.
    destruct (patch_producer_step channel patch h us j q h0 Hq Ha Hp)
      as (r' & h1 & Hr' & -> & Ha1 & Hp1).
    fold batch in Hr'.
    assert (j < length us)%nat as Hj.
    { apply lookup_lt_Some in Hr'. unfold batch in Hr'.
      by rewrite length_fmap in Hr'. }
    destruct (Hall j Hj) as [v Hv].
    unfold reply in Hv. rewrite Hr' in Hv. injection Hv as Hv.
    fold batch. rewrite Hv.
    exists v, h1, [RestPatch r']. by repeat split.
  - exists rs, h', (Effect (GetVoiceStatesForChannel (id channel)) :: tr).
    assert (Plugin.sendPatch settings idle channel patch includeSelf h
            = (Fulfilled (Some rs), h',
               Effect (GetVoiceStatesForChannel (id channel)) :: tr))
      as Hsend.
    { unfold Plugin.sendPatch, and_then. rewrite getVoiceStates_run.
      fold us. unfold runSequential. rewrite Hrun. simpl.
      by rewrite app_nil_r. }
    split; [exact Hsend|].
    destruct (sendPatch_requests _ _ _ _ _ _ _ _ _ Hsend) as (n & -> & Hn).
    rewrite (Hn rs eq_refl).
    split; [apply take_ge; unfold batch, us; by rewrite length_fmap|].
    pose proof (loop_patch_effects settings idle channel patch us
                  _ _ _ _ _ _ Hrun) as (k' & Heff & _).
    apply loop_shape in Hrun as (vs & _ & _ & _ & Hout).
    destruct (Hout rs eq_refl) as [-> Hlen].
    unfold Plugin.patch_producers in Hlen. rewrite length_map in Hlen.
    split; [done|].
    unfold logged.
    change (effects (Effect (GetVoiceStatesForChannel (id channel)) :: tr))
      with (GetVoiceStatesForChannel (id channel) :: effects tr).
    rewrite Heff. simpl. apply logged_of_patches.
Qed.

(** The rest of the client changing who is in which channel leaves the
    service alone. *)
Lemma membership_changes_leaves_service later :
  leaves_service (membership_changes later).
Proof. intros s h. by split. Qed.

(** ** Claims about failure *)

(** C3.  If the promise of producer [k] is rejected with [e], the
    promises of the producers before it having been fulfilled,
    [runSequential] is rejected with [e], the producers up to [k] have
    been called and no producer after [k] is called, and the throw of the
    await on producer [k] is the last step; a rejected run has its error
    from a producer.  [Inv n] is whatever is known of the world when [n]
    producers have been called.  [sendPatch] catches the rejection: when
    the service rejects request [k] of the batch with [e], having
    fulfilled the requests before it, the requests up to [k] go out and
    no other, [console.error("VoiceChatUtilities failed to run", e)] is
    the last step and the only log, and the promise that is left is
    fulfilled; no run of [sendPatch] leaves a rejected promise. *)
Theorem rejection_is_caught :
  (forall (W E T : Type) (settings : Settings) (idle : Suspension -> W -> W)
          (Inv : nat -> W -> Prop)
          (ps : list (Producer (W := W) (E := E) (T := T))) (w : W)
          (k : nat) (p : Producer (W := W) (E := E) (T := T)) (e : JsError),
     (forall s n w0, Inv n w0 -> Inv n (idle s w0)) ->
     Inv 0%nat w ->
     ps !! k = Some p ->
     (forall j q w0, (j < k)%nat -> ps !! j = Some q -> Inv j w0 ->
        exists v w1 es, q w0 = (Fulfilled v, w1, es) /\ Inv (S j) w1) ->
     (forall w0, Inv k w0 -> exists w1 es, p w0 = (Rejected e, w1, es)) ->
     exists w' tr,
       runSequential settings idle ps w = (Rejected e, w', tr)
       /\ starts tr = seq 0 (S k)
       /\ last tr = Some (Threw k e)
       /\ forall j, (k < j)%nat -> Started j ∉ tr)
  /\ (forall (W E T : Type) (settings : Settings)
             (idle : Suspension -> W -> W)
             (ps : list (Producer (W := W) (E := E) (T := T))) (w w' : W)
             (e : JsError) (tr : list (Step E T)),
        runSequential settings idle ps w = (Rejected e, w', tr) ->
        exists k p w0 w1 es,
          ps !! k = Some p /\ p w0 = (Rejected e, w1, es)
          /\ last tr = Some (Threw k e))
  /\ (forall settings idle channel patch includeSelf h,
        (forall e,
           (Plugin.sendPatch settings idle channel patch includeSelf h).1.1
           <> Rejected e)
        /\ forall k e,
             leaves_service idle ->
             reply h (request_for channel patch
                        <$> (userId <$> roster includeSelf channel h)) k
             = Some (Rejected e) ->
             (forall j, (j < k)%nat ->
                exists v,
                  reply h (request_for channel patch
                             <$> (userId <$> roster includeSelf channel h)) j
                  = Some (Fulfilled v)) ->
             exists h' tr0,
               Plugin.sendPatch settings idle channel patch includeSelf h
               = (Fulfilled None, h',
                  tr0 ++ [Threw k e;
                          Effect (ConsoleError
                                    "VoiceChatUtilities failed to run" e)])
               /\ requests tr0
                  = take (S k)
                      (request_for channel patch
                         <$> (userId <$> roster includeSelf channel h))
               /\ starts tr0 = seq 0 (S k)
               /\ logged tr0 = []).
Proof.
  split; [|split].
  - intros W E T settings idle Inv ps w k p e Hidle Hw Hk Hbefore Hrej.
    destruct (loop_first_rejection settings idle Inv Hidle ps 0%nat [] w k p e
                Hw Hk Hbefore Hrej)
      as (w' & tr0 & Hrun & Hstarts & _).
    simpl in Hrun. exists w', (tr0 ++ [Threw k e]).
    split; [exact Hrun|].
    assert (starts (tr0 ++ [Threw k e]) = seq 0 (S k)) as Hall.
    { rewrite starts_app, Hstarts. apply app_nil_r. }
    split; [exact Hall|]. split; [apply last_snoc|].
    intros j Hj Hin. apply elem_of_starts in Hin.
    rewrite Hall in Hin. apply elem_of_seq in Hin. lia.
  - intros W E T settings idle ps w w' e tr Hrun.
    destruct (loop_rejected _ _ _ _ _ _ _ _ _ Hrun) as (k & tr0 & ->).
    destruct (loop_threw_producer _ _ _ _ _ _ _ _ _ Hrun k e)
      as (p & w0 & w1 & es & Hp & Hpw).
    { rewrite elem_of_app, list_elem_of_singleton. by right. }
    rewrite Nat.sub_0_r in Hp.
    exists k, p, w0, w1, es. split; [done|]. split; [done|].
    apply last_snoc.
  - intros settings idle channel patch includeSelf h. split.
    + intros e.
      destruct (Plugin.sendPatch settings idle channel patch includeSelf h)
        as [[out h'] tr] eqn:Hsend.
      apply sendPatch_inv in Hsend as (p & tr_run & _ & -> & _).
      by destruct p.
    + intros k e Hidle Hk Hbefore.
      destruct (sendPatch_rejected_at settings idle channel patch includeSelf
                  h k e Hidle Hk Hbefore)
        as (h' & tr0 & Hsend & Hreq & Hstarts & _ & Hlog).
      by exists h', tr0.
Qed.

(** Three producers of which the second is rejected with "boom": the
    run is rejected with "boom" and the third is not called.  A service
    that refuses the request for [C], with [B], [C] and [D] in the
    batch: the requests for [B] and [C] go out, the one for [D] does
    not, and the error is logged as the last step. *)
Lemma rejection_is_caught_witness :
  let ps : list (Producer (W := unit) (E := Event) (T := JsValue)) :=
    [ (fun w => (Fulfilled JNull, w, []));
      (fun w => (Rejected "boom", w, []));
      (fun w => (Fulfilled JNull, w, [])) ] in
  let run := runSequential default_settings (fun _ w => w) ps tt in
  let h := client "A" None ["A"; "B"; "C"; "D"]%string (fun _ _ => true)
             (refuses_member "C") in
  let sent := Plugin.sendPatch default_settings undisturbed lobby
                [("mute"%string, JBool true)] false h in
  run.1.1 = Rejected "boom"
  /\ starts run.2 = [0; 1]%nat
  /\ sent.1.1 = Fulfilled None
  /\ requests sent.2
     = request_for lobby [("mute"%string, JBool true)] <$> ["B"; "C"]%string
  /\ last sent.2
     = Some (Effect (ConsoleError "VoiceChatUtilities failed to run" "403")).
Proof.
  intros ps run h sent.
  destruct rejection_is_caught as (Hrunner & _ & Hsend).
  destruct (Hrunner unit Event JsValue default_settings (fun _ w => w)
              (fun _ _ => True) ps tt 1%nat
              (fun w => (Rejected "boom", w, [])) "boom"%string)
    as (w' & tr & Hrun & Hstarts & _).
  - done.
  - done.
  - reflexivity.
  - intros j q w0 Hj Hq _.
    assert (j = 0%nat) as -> by lia. injection Hq as <-.
    by exists JNull, w0, [].
  - intros w0 _. by exists w0, [].
  - destruct (Hsend default_settings undisturbed lobby
                [("mute"%string, JBool true)] false h) as [_ Hk].
    destruct (Hk 1%nat "403"%string) as (h' & tr0 & Hsent & Hreq & _).
    + intros s h0. split; reflexivity.
    + vm_compute. reflexivity.
    + intros j Hj. assert (j = 0%nat) as -> by lia.
      exists JNull. vm_compute. reflexivity.
    + subst run sent. rewrite Hrun, Hsent. cbn [fst snd].
      split; [reflexivity|]. split; [exact Hstarts|].
      split; [reflexivity|]. split.
      * unfold requests. rewrite effects_app.
        change (effects [Threw 1 "403";
                         Effect (ConsoleError
                                   "VoiceChatUtilities failed to run" "403")])
          with [ConsoleError "VoiceChatUtilities failed to run" "403"].
        rewrite omap_app. cbn [omap patch_request]. rewrite app_nil_r.
        exact Hreq.
      * change [Threw 1 "403";
                Effect (ConsoleError "VoiceChatUtilities failed to run" "403")]
          with ([@Threw Event JsValue 1 "403"]
                  ++ [Effect (ConsoleError
                                "VoiceChatUtilities failed to run" "403")]).
        rewrite app_assoc. apply last_snoc.
Defined.

(** ** The batch does not depend on what happens to the stores later *)

Lemma elem_of_effects {E T : Type} (tr : list (Step E T)) (e : E) :
  Effect e ∈ tr <-> e ∈ effects tr.
Proof.
  unfold effects. rewrite list_elem_of_omap. split.
  - intros Hin. by exists (Effect e).
  - intros (s & Hin & Hs). destruct s; simplify_eq/=. done.
Qed.

Section ServiceOnly.
Variable settings : Settings.
Variables idle1 idle2 : Suspension -> Host -> Host.
Variable channel : Channel.
Variable patch : list (string * JsValue).

(** Neither [idle1] nor [idle2] touches the service: they change the
    client's stores only. *)
Hypothesis idle1_service : forall s h,
  patched (idle1 s h) = patched h /\ answer (idle1 s h) = answer h.
Hypothesis idle2_service : forall s h,
  patched (idle2 s h) = patched h /\ answer (idle2 s h) = answer h.

Lemma world_after_service idle i h :
  (forall s h, patched (idle s h) = patched h /\ answer (idle s h) = answer h) ->
  patched (world_after settings idle i h) = patched h
  /\ answer (world_after settings idle i h) = answer h.
Proof.
  intros Hidle. unfold world_after.
  destruct (pause_due settings i).
  - destruct (Hidle (AwaitTimer i) (idle (AwaitPromise i) h)) as [-> ->].
    apply Hidle.
  - apply Hidle.
Qed.

Lemma loop_patch_service_only us : forall i rs h1 h2 out1 h1' tr1 out2 h2' tr2,
  patched h1 = patched h2 -> answer h1 = answer h2 ->
  loop settings idle1 i (Plugin.patch_producers channel patch us) rs h1
  = (out1, h1', tr1) ->
  loop settings idle2 i (Plugin.patch_producers channel patch us) rs h2
  = (out2, h2', tr2) ->
  out1 = out2 /\ tr1 = tr2.
Proof.
  induction us as [|u us IH];
    intros i rs h1 h2 out1 h1' tr1 out2 h2' tr2 Hpatched Hanswer Hrun1 Hrun2.
  - change (Plugin.patch_producers channel patch []) with
      (@nil (Producer (W := Host) (E := Event) (T := JsValue))) in *.
    rewrite loop_nil in Hrun1, Hrun2. by simplify_eq.
  - change (Plugin.patch_producers channel patch (u :: us)) with
      (RestAPI.patch (member_request channel patch u)
         :: Plugin.patch_producers channel patch us) in *.
    apply loop_cons_inv in Hrun1 as (promise1 & h1a & es1 & Hp1 & Hrest1).
    apply loop_cons_inv in Hrun2 as (promise2 & h2a & es2 & Hp2 & Hrest2).
    unfold RestAPI.patch in Hp1, Hp2.
    rewrite Hpatched, Hanswer in Hp1. simplify_eq.
    destruct (answer h2 (patched h2) (member_request channel patch u))
      as [v|e|].
    + destruct Hrest1 as (tr1' & Hrun1 & ->).
      destruct Hrest2 as (tr2' & Hrun2 & ->).
      destruct (world_after_service idle1 i
                  (with_patched
                     (patched h2 ++ [member_request channel patch u]) h1)
                  idle1_service) as [Hp1 Ha1].
      destruct (world_after_service idle2 i
                  (with_patched
                     (patched h2 ++ [member_request channel patch u]) h2)
                  idle2_service) as [Hp2 Ha2].
      destruct (IH _ _ _ _ _ _ _ _ _ _ ltac:(by rewrite Hp1, Hp2)
                  ltac:(by rewrite Ha1, Ha2) Hrun1 Hrun2) as [-> ->].
      done.
    + destruct Hrest1 as [-> ->]. by destruct Hrest2 as [-> ->].
    + destruct Hrest1 as [-> ->]. by destruct Hrest2 as [-> ->].
Qed.

Lemma sendPatch_service_only includeSelf h out1 h1' tr1 out2 h2' tr2 :
  Plugin.sendPatch settings idle1 channel patch includeSelf h
  = (out1, h1', tr1) ->
  Plugin.sendPatch settings idle2 channel patch includeSelf h
  = (out2, h2', tr2) ->
  out1 = out2 /\ tr1 = tr2.
Proof.
  intros Hsend1 Hsend2.
  apply sendPatch_inv in Hsend1 as (p1 & tr_run1 & Hrun1 & -> & ->).
  apply sendPatch_inv in Hsend2 as (p2 & tr_run2 & Hrun2 & -> & ->).
  by destruct (loop_patch_service_only _ _ _ _ _ _ _ _ _ _ _
                 eq_refl eq_refl Hrun1 Hrun2) as [-> ->].
Qed.
End ServiceOnly.

(** C10.  [sendPatch] reads the channel's voice states once, as its first
    step, and makes its requests from what it read: one per member of the
    roster of that moment, in order, each with the same body and the URL
    [/guilds/{guild_id}/members/{userId}].  What goes out is a first part
    of that batch, all of it when the batch runs to its end; and whatever
    the rest of the client does to the channels' membership afterwards,
    the outcome and the steps are those of a run in which nothing
    changes. *)
Theorem sendPatch_snapshot (settings : Settings)
    (later : Suspension -> gmap string (list (string * VoiceState)))
    (channel : Channel) (patch : list (string * JsValue)) (includeSelf : bool)
    (h h' : Host) (out : Settled (option (list JsValue))) (tr : Trace) :
  Plugin.sendPatch settings (membership_changes later) channel patch
    includeSelf h = (out, h', tr) ->
  let batch :=
    request_for channel patch <$> (userId <$> roster includeSelf channel h) in
  (exists tr', tr = Effect (GetVoiceStatesForChannel (id channel)) :: tr'
               /\ forall c, Effect (GetVoiceStatesForChannel c) ∉ tr')
  /\ requests tr `prefix_of` batch
  /\ (forall rs, out = Fulfilled (Some rs) -> requests tr = batch)
  /\ (Plugin.sendPatch settings undisturbed channel patch includeSelf h).1.1
     = out
  /\ (Plugin.sendPatch settings undisturbed channel patch includeSelf h).2
     = tr.
Proof.
  intros Hsend batch.
  assert (batch = member_request channel patch <$> roster includeSelf channel h)
    as Hbatch.
  { unfold batch. by rewrite <- list_fmap_compose. }
  destruct (sendPatch_requests _ _ _ _ _ _ _ _ _ Hsend) as (k & Hreq & Hall).
  rewrite <- Hbatch in Hreq.
  split; [|split; [|split]].
  - pose proof Hsend as Hinv.
    apply sendPatch_inv in Hinv as (p & tr_run & Hrun & _ & ->).
    eexists. split; [done|]. intros c.
    rewrite elem_of_app, list_elem_of_fmap, elem_of_effects.
    destruct (loop_patch_effects _ _ _ _ _ _ _ _ _ _ _ Hrun) as (k' & -> & _).
    rewrite list_elem_of_fmap.
    intros [(r & Hr & _)|(e & He1 & He)]; [discriminate|].
    inversion He1; subst e.
    destruct p; simpl in He; try by apply elem_of_nil in He.
    by apply list_elem_of_singleton in He.
  - rewrite Hreq. apply prefix_take.
  - intros rs Hrs. rewrite Hreq, (Hall rs Hrs).
    rewrite take_ge; [done|]. by rewrite Hbatch, length_fmap.
  - destruct (Plugin.sendPatch settings undisturbed _ _ _ _)
      as [[out0 h0] tr0] eqn:Hsend0.
    destruct (sendPatch_service_only settings (membership_changes later)
                undisturbed channel patch ltac:(done) ltac:(done)
                _ _ _ _ _ _ _ _ Hsend Hsend0) as [-> ->].
    done.
Qed.

(** Nothing changes the lobby's membership to nobody: the batch is still
    the one of the moment of dispatch. *)
Lemma sendPatch_snapshot_witness :
  let h := client "A" (Some "100"%string) ["A"; "B"; "C"]%string
             (fun _ _ => true) accepts in
  let mute_all := [("mute"%string, JBool true)] in
  requests (Plugin.sendPatch default_settings (membership_changes (fun _ => ∅))
              lobby mute_all false h).2
  = [request_for lobby mute_all "B"; request_for lobby mute_all "C"].
Proof.
  cbv zeta.
  destruct (Plugin.sendPatch _ _ _ _ _ _) as [[out h'] tr] eqn:Hrun.
  destruct (sendPatch_snapshot _ _ _ _ _ _ _ _ _ Hrun) as (_ & _ & Hall & _).
  assert (exists rs, out = Fulfilled (Some rs)) as [rs Hout].
  { vm_compute in Hrun. inversion Hrun. eauto. }
  cbn [snd]. rewrite (Hall rs Hout). reflexivity.
Defined.

(** ** Claims about the rosters of the server actions *)

Lemma fmap_filter_comm {A B : Type} (f : A -> B) (P : B -> Prop)
    {Hdec : forall y, Decision (P y)} (l : list A) :
  f <$> filter (fun x => P (f x)) l = filter P (f <$> l).
Proof.
  induction l as [|x l IH]; [done|].
  rewrite fmap_cons, !filter_cons.
  destruct (decide (P (f x))); by rewrite ?fmap_cons, IH.
Qed.

(** The ids of the roster, when the channel's members are [A], [B] and
    [C] and [A] is the one who acts. *)
Lemma roster_of_three (flag : bool) (c : Channel) (h : Host)
    (o : list (string * VoiceState)) (A B C : string) :
  voiceStates h !! id c = Some o ->
  userId <$> Object_values o ≡ₚ [A; B; C] ->
  A <> B -> A <> C ->
  currentUser h = A ->
  userId <$> roster flag c h ≡ₚ if flag then [A; B; C] else [B; C].
Proof.
  intros Ho Hperm HAB HAC Hme. unfold roster. rewrite Ho, Hme.
  change (default [] (Some o)) with o.
  assert (userId <$> filter (fun s => flag = true \/ userId s <> A)
                            (Object_values o)
          = filter (fun u => flag = true \/ u <> A)
                   (userId <$> Object_values o)) as ->.
  { exact (fmap_filter_comm userId (fun u => flag = true \/ u <> A)
             (Object_values o)). }
  rewrite Hperm. rewrite !filter_cons, filter_nil.
  destruct flag.
  - by repeat (destruct (decide _) as [_|[]]; [|by left]).
  - destruct (decide (false = true \/ A <> A)) as [[?|?]|_]; [done..|].
    destruct (decide (false = true \/ B <> A)) as [_|[]]; [|by right].
    destruct (decide (false = true \/ C <> A)) as [_|[]]; [|by right].
    done.
Qed.

(** C4, as stated, is false: when the service refuses the request for
    [B], the batch stops there and one request has gone out, not two. *)
Lemma serverMute_refused :
  let h := client "A" (Some "100"%string) ["A"; "B"; "C"]%string
             (fun _ _ => true) refuses in
  let issued :=
    requests (Plugin.actions.serverMute default_settings undisturbed lobby h).2 in
  includeSelfInActions default_settings = false
  /\ issued = [request_for lobby [("mute"%string, JBool true)] "B"]
  /\ length issued <> 2%nat.
Proof. split; [reflexivity|]. split; [reflexivity|]. vm_compute. discriminate. Qed.

(** C4, amended.  For a channel whose voice states are those of the
    members [A], [B] and [C], with [A] the invoking user, the batch of
    [serverMute] is the two requests for [B] and [C] when
    [includeSelfInActions] is false and the three for [A], [B] and [C]
    when it is true; the requests that go out are a first part of the
    batch, and the whole batch when every request is fulfilled: when the
    service fulfils each request of the batch, all of them go out and
    the batch ends fulfilled with one result for each. *)
Theorem serverMute_requests (settings : Settings)
    (idle : Suspension -> Host -> Host) (c : Channel) (h h' : Host)
    (o : list (string * VoiceState)) (A B C : string)
    (out : Settled (option (list JsValue))) (tr : Trace) :
  voiceStates h !! id c = Some o ->
  userId <$> Object_values o ≡ₚ [A; B; C] ->
  A <> B -> A <> C ->
  currentUser h = A ->
  Plugin.actions.serverMute settings idle c h = (out, h', tr) ->
  exists batch,
    batch ≡ₚ request_for c [("mute"%string, JBool true)]
               <$> (if includeSelfInActions settings
                    then [A; B; C] else [B; C])
    /\ length batch = (if includeSelfInActions settings then 3 else 2)%nat
    /\ requests tr `prefix_of` batch
    /\ (forall rs, out = Fulfilled (Some rs) -> requests tr = batch)
    /\ (leaves_service idle ->
        (forall k, (k < length batch)%nat ->
           exists v, reply h batch k = Some (Fulfilled v)) ->
        requests tr = batch
        /\ exists rs, out = Fulfilled (Some rs)
                      /\ length rs = length batch).
Proof.
  intros Ho Hperm HAB HAC Hme Hrun. unfold Plugin.actions.serverMute in Hrun.
  pose proof (roster_of_three (includeSelfInActions settings) c h o A B C
                Ho Hperm HAB HAC Hme) as Hroster.
  destruct (sendPatch_requests _ _ _ _ _ _ _ _ _ Hrun) as (k & Hreq & Hall).
  exists (request_for c [("mute"%string, JBool true)]
            <$> (userId <$> roster (includeSelfInActions settings) c h)).
  assert (request_for c [("mute"%string, JBool true)]
            <$> (userId <$> roster (includeSelfInActions settings) c h)
          = member_request c [("mute"%string, JBool true)]
              <$> roster (includeSelfInActions settings) c h) as Hbatch.
  { by rewrite <- list_fmap_compose. }
  split; [by rewrite Hroster|]. split.
  { rewrite length_fmap, Hroster. by destruct (includeSelfInActions settings). }
  split; [rewrite Hbatch, Hreq; apply prefix_take|].
  split.
  { rewrite Hbatch, Hreq. intros rs Hrs. rewrite (Hall rs Hrs).
    apply take_ge. by rewrite length_fmap. }
  intros Hidle Hserved.
  destruct (sendPatch_all_fulfilled settings idle c
              [("mute"%string, JBool true)] (includeSelfInActions settings) h
              Hidle)
    as (rs & h1 & tr1 & Hsend & Hsent & Hlen & _).
  { intros j Hj. apply Hserved. by rewrite !length_fmap. }
  rewrite Hsend in Hrun. injection Hrun as <- <- <-.
  split; [exact Hsent|]. exists rs. split; [done|].
  by rewrite !length_fmap.
Qed.

(** The lobby with [A], [B] and [C], a service that accepts: the two
    requests for [B] and [C] with [includeSelfInActions] off, the three
    for [A], [B] and [C] with it on, each batch ending fulfilled. *)
Lemma serverMute_requests_witness :
  let h := client "A" (Some "100"%string) ["A"; "B"; "C"]%string
             (fun _ _ => true) accepts in
  let on := with_includeSelfInActions true default_settings in
  let without := Plugin.actions.serverMute default_settings undisturbed lobby h in
  let within := Plugin.actions.serverMute on undisturbed lobby h in
  (length (requests without.2) = 2%nat
   /\ exists rs, without.1.1 = Fulfilled (Some rs) /\ length rs = 2%nat)
  /\ (length (requests within.2) = 3%nat
      /\ exists rs, within.1.1 = Fulfilled (Some rs) /\ length rs = 3%nat).
Proof.
  intros h on without within. subst without within.
  assert (leaves_service undisturbed) as Hidle
    by (intros s h0; split; reflexivity).
  assert (forall batch k, (k < length batch)%nat ->
            exists v, reply h batch k = Some (Fulfilled v)) as Hserved.
  { intros batch k Hk. unfold reply.
    destruct (lookup_lt_is_Some_2 batch k Hk) as [r ->]. by exists JNull. }
  split.
  - destruct (Plugin.actions.serverMute default_settings undisturbed lobby h)
      as [[out h'] tr] eqn:Hrun.
    destruct (serverMute_requests default_settings undisturbed lobby h h'
                [present "A" lobby; present "B" lobby; present "C" lobby]
                "A"%string "B"%string "C"%string out tr
                ltac:(reflexivity) ltac:(reflexivity) ltac:(done) ltac:(done)
                ltac:(reflexivity) Hrun)
      as (batch & _ & Hlen & _ & _ & Hall).
    destruct (Hall Hidle (Hserved batch)) as (Hsent & rs & Hout & Hrs).
    cbn [fst snd]. rewrite Hsent. split; [exact Hlen|].
    exists rs. split; [exact Hout|]. by rewrite Hrs.
  - destruct (Plugin.actions.serverMute on undisturbed lobby h)
      as [[out h'] tr] eqn:Hrun.
    destruct (serverMute_requests on undisturbed lobby h h'
                [present "A" lobby; present "B" lobby; present "C" lobby]
                "A"%string "B"%string "C"%string out tr
                ltac:(reflexivity) ltac:(reflexivity) ltac:(done) ltac:(done)
                ltac:(reflexivity) Hrun)
      as (batch & _ & Hlen & _ & _ & Hall).
    destruct (Hall Hidle (Hserved batch)) as (Hsent & rs & Hout & Hrs).
    cbn [fst snd]. rewrite Hsent. split; [exact Hlen|].
    exists rs. split; [exact Hout|]. by rewrite Hrs.
Defined.

(** ** Claims about the invoking user and [disconnect] *)

Lemma filter_none {A : Type} (P : A -> Prop) {Hdec : forall x, Decision (P x)}
    (l : list A) :
  (forall x, x ∈ l -> ~ P x) -> filter P l = [].
Proof.
  induction l as [|x l IH]; intros Hl; [done|].
  rewrite filter_cons_False by (apply Hl; left).
  apply IH. intros y Hy. apply Hl. by right.
Qed.

(** A batch without the invoking user has no step that acts on them. *)
Lemma sendPatch_spares_self settings idle c patch h out h' tr :
  Plugin.sendPatch settings idle c patch false h = (out, h', tr) ->
  filter (affects c (currentUser h)) tr = [].
Proof.
  intros Hsend.
  apply sendPatch_inv in Hsend as (p & tr_run & Hrun & _ & ->).
  apply filter_none. intros s Hs.
  rewrite elem_of_cons, elem_of_app, list_elem_of_fmap in Hs.
  destruct Hs as [->|[Hs|(e & -> & He)]]; [by intros []| |].
  - destruct s as [i|e|i v|i e|i ms]; try by intros [].
    apply elem_of_effects in Hs.
    destruct (loop_patch_effects _ _ _ _ _ _ _ _ _ _ _ Hrun) as (k & Heff & _).
    rewrite Heff in Hs.
    apply list_elem_of_fmap in Hs as (r & -> & Hr).
    apply elem_of_take in Hr as (j & Hr & _).
    apply list_elem_of_lookup_2 in Hr.
    apply list_elem_of_fmap in Hr as (u & -> & Hu).
    unfold roster in Hu. apply list_elem_of_filter in Hu as [[?|Hne] _]; [done|].
    simpl. unfold Plugin.member_url. intros Heq.
    by do 3 apply (inj (String.app _)) in Heq.
  - destruct p as [vs|e0|]; simpl in He; try by apply elem_of_nil in He.
    apply list_elem_of_singleton in He as ->. by intros [].
Qed.

Lemma disconnect_inv settings idle c h out h' tr :
  Plugin.actions.disconnect settings idle c h = (out, h', tr) ->
  (voiceChannelId h = Some (id c)
   /\ exists tr',
        Plugin.sendPatch settings idle c [("channel_id"%string, JNull)] false
          (with_voiceChannelId None h) = (out, h', tr')
        /\ tr = Effect ChannelDisconnect :: tr')
  \/ (voiceChannelId h <> Some (id c)
      /\ Plugin.sendPatch settings idle c [("channel_id"%string, JNull)] false h
         = (out, h', tr)).
Proof.
  unfold Plugin.actions.disconnect, and_then.
  unfold SelectedChannelStore.getVoiceChannelId, gets, mbind, M_bind.
  destruct (decide (voiceChannelId h = Some (id c))) as [Heq|Hne].
  - simpl.
    destruct (Plugin.sendPatch _ _ _ _ _ _) as [[out0 h0] tr0] eqn:Hsend.
    intros [= <- <- <-]. left. split; [done|]. by exists tr0.
  - simpl.
    destruct (Plugin.sendPatch _ _ _ _ _ _) as [[out0 h0] tr0] eqn:Hsend.
    intros [= <- <- <-]. right. by split.
Qed.

(** C5, as stated, is false: when the invoking user [A] is not connected
    to the lobby, nor among its members, [disconnect] issues nothing
    that acts on them, whatever [includeSelfInActions] is. *)
Lemma disconnect_elsewhere :
  let h := client "A" None ["B"; "C"]%string (fun _ _ => true) accepts in
  filter (affects lobby "A")
    (Plugin.actions.disconnect
       (with_includeSelfInActions false default_settings) undisturbed lobby h).2
  = []
  /\ filter (affects lobby "A")
       (Plugin.actions.disconnect
          (with_includeSelfInActions true default_settings) undisturbed lobby h).2
     = [].
Proof. split; reflexivity. Qed.

(** C5, amended.  [disconnect] does the same for every value of
    [includeSelfInActions].  When the client is connected to the target
    channel, its first step is the direct call that leaves the voice
    channel, and nothing else it does acts on the invoking user: the
    batch has no request for them.  When the client is not connected to
    the target channel and the invoking user is not among the channel's
    voice states, nothing it does acts on the invoking user. *)
Theorem disconnect_self (settings : Settings)
    (idle : Suspension -> Host -> Host) (c : Channel) (h h' : Host)
    (out : Settled (option (list JsValue))) (tr : Trace) :
  Plugin.actions.disconnect settings idle c h = (out, h', tr) ->
  (forall flag,
     Plugin.actions.disconnect (with_includeSelfInActions flag settings)
       idle c h = (out, h', tr))
  /\ (voiceChannelId h = Some (id c) ->
        exists tr', tr = Effect ChannelDisconnect :: tr'
                    /\ filter (affects c (currentUser h)) tr' = [])
  /\ (voiceChannelId h <> Some (id c) ->
        currentUser h
          ∉ userId <$> Object_values (default [] (voiceStates h !! id c)) ->
        filter (affects c (currentUser h)) tr = []).
Proof.
  intros Hrun. split; [|split].
  - intros flag. exact Hrun.
  - intros Hin.
    apply disconnect_inv in Hrun as [(_ & tr' & Hsend & ->)|[Hne _]]; [|done].
    exists tr'. split; [done|].
    by apply sendPatch_spares_self in Hsend.
  - intros Hout _.
    apply disconnect_inv in Hrun as [[Hin _]|[_ Hsend]]; [done|].
    by apply sendPatch_spares_self in Hsend.
Qed.

(** [A], connected to the lobby with [B] and [C]: the direct call, then
    the batch for [B] and [C]. *)
Lemma disconnect_self_witness :
  let h := client "A" (Some "100"%string) ["A"; "B"; "C"]%string
             (fun _ _ => true) accepts in
  filter (affects lobby "A")
    (Plugin.actions.disconnect default_settings undisturbed lobby h).2
  = [Effect ChannelDisconnect].
Proof.
  intros h.
  destruct (Plugin.actions.disconnect default_settings undisturbed lobby h)
    as [[out h'] tr] eqn:Hrun.
  destruct (disconnect_self _ _ _ _ _ _ _ Hrun) as (_ & Hin & _).
  destruct (Hin eq_refl) as (tr' & -> & Hnone).
  cbn [snd]. rewrite (filter_cons_True (affects lobby "A"%string)) by done.
  change (currentUser h) with "A"%string in Hnone. by rewrite Hnone.
Defined.

(** ** The local actions *)

Lemma forEach_cons {A : Type} (x : A) (array : list A) (f : A -> M unit)
    (h : Host) :
  forEach (x :: array) f h
  = (let '(_, h1, es1) := f x h in
     let '(b, h2, es2) := forEach array f h1 in
     (b, h2, es1 ++ es2)).
Proof. reflexivity. Qed.

Lemma user_ids_cons (s : VoiceState) (states : list VoiceState) :
  user_ids (s :: states) = {[userId s]} ∪ user_ids states.
Proof. unfold user_ids. by rewrite fmap_cons, list_to_set_cons. Qed.

Lemma union_absorb (X Y : gset string) (u : string) :
  u ∈ X -> X ∪ ({[u]} ∪ Y) = X ∪ Y.
Proof.
  intros Hu. apply set_eq. intros x.
  rewrite !elem_of_union, elem_of_singleton.
  split; [intros [?|[->|?]]|intros [?|?]]; auto.
Qed.

Lemma union_shift (X Y : gset string) (u : string) :
  X ∪ {[u]} ∪ Y = X ∪ ({[u]} ∪ Y).
Proof. by rewrite (assoc_L (∪)). Qed.

Lemma difference_shift (X Y : gset string) (u : string) :
  X ∖ {[u]} ∖ Y = X ∖ ({[u]} ∪ Y).
Proof.
  apply set_eq. intros x.
  rewrite !elem_of_difference, elem_of_union. tauto.
Qed.

Lemma difference_skip (X Y : gset string) (u : string) :
  u ∉ X -> X ∖ ({[u]} ∪ Y) = X ∖ Y.
Proof.
  intros Hu. apply set_eq. intros x.
  rewrite !elem_of_difference, elem_of_union, elem_of_singleton.
  split; [tauto|]. intros [Hx Hy]. split; [done|].
  intros [->|?]; auto.
Qed.

(** A store of user ids with a query and a toggle: the locally muted
    users, or the users whose soundboard is muted. *)
Section Toggles.
Variable get : Host -> gset string.
Variable set : gset string -> Host -> Host.
Variable ev : string -> Event.

Hypothesis get_set : forall X h, get (set X h) = X.
Hypothesis set_set : forall X Y h, set X (set Y h) = set X h.
Hypothesis set_get : forall h, set (get h) h = h.

Lemma or_else_toggle (user : string) (h : Host) :
  or_else (gets (fun h => bool_decide (user ∈ get h)))
          (emit (ev user);;
           modify (fun h => set (flip_member user (get h)) h)) h
  = if bool_decide (user ∈ get h) then (tt, h, [])
    else (tt, set (get h ∪ {[user]}) h, [ev user]).
Proof.
  unfold or_else, gets, emit, modify, mbind, M_bind, flip_member.
  destruct (bool_decide_reflect (user ∈ get h)) as [Hin|Hout]; [done|].
  by rewrite decide_False.
Qed.

Lemma and_also_toggle (user : string) (h : Host) :
  and_also (gets (fun h => bool_decide (user ∈ get h)))
           (emit (ev user);;
            modify (fun h => set (flip_member user (get h)) h)) h
  = if bool_decide (user ∈ get h)
    then (tt, set (get h ∖ {[user]}) h, [ev user])
    else (tt, h, []).
Proof.
  unfold and_also, gets, emit, modify, mbind, M_bind, flip_member.
  destruct (bool_decide_reflect (user ∈ get h)) as [Hin|Hout]; [|done].
  by rewrite decide_True.
Qed.

(** [forEach] with [is_in(u) || toggle(u)] puts every user of the list
    in, and toggles only users that were out. *)
Lemma forEach_or_else (states : list VoiceState) : forall h,
  exists es,
    forEach states (fun state =>
      or_else (gets (fun h => bool_decide (userId state ∈ get h)))
              (emit (ev (userId state));;
               modify (fun h => set (flip_member (userId state) (get h)) h))) h
    = (tt, set (get h ∪ user_ids states) h, es)
    /\ forall e, e ∈ es ->
         exists user, e = ev user /\ user ∈ userId <$> states /\ user ∉ get h.
Proof.
  induction states as [|s states IH]; intros h.
  - exists []. split.
    + unfold user_ids. simpl. rewrite (right_id_L ∅ (∪)). by rewrite set_get.
    + intros e He. by apply elem_of_nil in He.
  - rewrite forEach_cons, or_else_toggle.
    destruct (bool_decide_reflect (userId s ∈ get h)) as [Hin|Hout].
    + destruct (IH h) as (es & -> & Hes). exists es. split.
      * by rewrite user_ids_cons, union_absorb.
      * intros e He. destruct (Hes e He) as (u & -> & Hu & Hnot).
        exists u. rewrite fmap_cons, elem_of_cons. eauto.
    + destruct (IH (set (get h ∪ {[userId s]}) h)) as (es & -> & Hes).
      exists (ev (userId s) :: es). split.
      * by rewrite get_set, set_set, user_ids_cons, union_shift.
      * intros e He. apply elem_of_cons in He as [->|He].
        { exists (userId s). rewrite fmap_cons, elem_of_cons. eauto. }
        destruct (Hes e He) as (u & -> & Hu & Hnot).
        exists u. rewrite fmap_cons, elem_of_cons.
        rewrite get_set in Hnot. apply not_elem_of_union in Hnot as [Hnot _].
        eauto.
Qed.

(** [forEach] with [is_in(u) && toggle(u)] takes every user of the list
    out, and toggles only users that were in. *)
Lemma forEach_and_also (states : list VoiceState) : forall h,
  exists es,
    forEach states (fun state =>
      and_also (gets (fun h => bool_decide (userId state ∈ get h)))
               (emit (ev (userId state));;
                modify (fun h => set (flip_member (userId state) (get h)) h))) h
    = (tt, set (get h ∖ user_ids states) h, es)
    /\ forall e, e ∈ es ->
         exists user, e = ev user /\ user ∈ userId <$> states /\ user ∈ get h.
Proof.
  induction states as [|s states IH]; intros h.
  - exists []. split.
    + unfold user_ids. simpl. rewrite difference_empty_L. by rewrite set_get.
    + intros e He. by apply elem_of_nil in He.
  - rewrite forEach_cons, and_also_toggle.
    destruct (bool_decide_reflect (userId s ∈ get h)) as [Hin|Hout].
    + destruct (IH (set (get h ∖ {[userId s]}) h)) as (es & -> & Hes).
      exists (ev (userId s) :: es). split.
      * by rewrite get_set, set_set, user_ids_cons, difference_shift.
      * intros e He. apply elem_of_cons in He as [->|He].
        { exists (userId s). rewrite fmap_cons, elem_of_cons. eauto. }
        destruct (Hes e He) as (u & -> & Hu & Hstill).
        exists u. rewrite fmap_cons, elem_of_cons.
        rewrite get_set in Hstill.
        apply elem_of_difference in Hstill as [Hstill _]. eauto.
    + destruct (IH h) as (es & -> & Hes). exists es. split.
      * by rewrite user_ids_cons, difference_skip.
      * intros e He. destruct (Hes e He) as (u & -> & Hu & Hstill).
        exists u. rewrite fmap_cons, elem_of_cons. eauto.
Qed.
End Toggles.

(** The two stores of user ids obey the laws of [Toggles]. *)
Lemma with_localMutes_get h : with_localMutes (localMutes h) h = h.
Proof. by destruct h. Qed.

Lemma with_soundboardMutes_get h :
  with_soundboardMutes (soundboardMutes h) h = h.
Proof. by destruct h. Qed.

Lemma with_selfMute_get h : with_selfMute (selfMute h) h = h.
Proof. by destruct h. Qed.

(** *** What each local action does *)

Lemma mute_run settings c h :
  let toggles_self := includeSelfInActions settings && negb (selfMute h) in
  exists es,
    Plugin.actions.mute settings c h
    = (tt,
       (if toggles_self then with_selfMute true else fun h => h)
         (with_localMutes (localMutes h ∪ user_ids (roster false c h)) h),
       GetVoiceStatesForChannel (id c)
         :: es ++ (if toggles_self then [ToggleSelfMute] else []))
    /\ forall e, e ∈ es ->
         exists user, e = ToggleLocalMute user
                      /\ user ∈ userId <$> roster false c h
                      /\ user ∉ localMutes h.
Proof.
  intros toggles_self. subst toggles_self.
  destruct (forEach_or_else localMutes with_localMutes ToggleLocalMute
              ltac:(done) ltac:(done) with_localMutes_get
              (roster false c h) h) as (es & Hrun & Hes).
  exists es. split; [|done].
  unfold Plugin.actions.mute, mbind, M_bind.
  rewrite getVoiceStates_run.
  unfold MediaEngineStore.isLocalMute, ClientActions.toggleLocalMute.
  rewrite Hrun.
  destruct (includeSelfInActions settings); [|done].
  unfold or_else, MediaEngineStore.isSelfMute, ClientActions.toggleSelfMute,
    gets, emit, modify, skip, mret, M_ret, mbind, M_bind.
  change (selfMute (with_localMutes _ h)) with (selfMute h).
  destruct (selfMute h) eqn:Hself; simpl; by rewrite ?Hself, ?app_nil_r.
Qed.

Lemma unmute_run settings c h :
  let toggles_self := includeSelfInActions settings && selfMute h in
  exists es,
    Plugin.actions.unmute settings c h
    = (tt,
       (if toggles_self then with_selfMute false else fun h => h)
         (with_localMutes (localMutes h ∖ user_ids (roster false c h)) h),
       GetVoiceStatesForChannel (id c)
         :: es ++ (if toggles_self then [ToggleSelfMute] else []))
    /\ forall e, e ∈ es ->
         exists user, e = ToggleLocalMute user
                      /\ user ∈ userId <$> roster false c h
                      /\ user ∈ localMutes h.
Proof.
  intros toggles_self. subst toggles_self.
  destruct (forEach_and_also localMutes with_localMutes ToggleLocalMute
              ltac:(done) ltac:(done) with_localMutes_get
              (roster false c h) h) as (es & Hrun & Hes).
  exists es. split; [|done].
  unfold Plugin.actions.unmute, mbind, M_bind.
  rewrite getVoiceStates_run.
  unfold MediaEngineStore.isLocalMute, ClientActions.toggleLocalMute.
  rewrite Hrun.
  destruct (includeSelfInActions settings); [|done].
  unfold and_also, MediaEngineStore.isSelfMute, ClientActions.toggleSelfMute,
    gets, emit, modify, skip, mret, M_ret, mbind, M_bind.
  change (selfMute (with_localMutes _ h)) with (selfMute h).
  destruct (selfMute h) eqn:Hself; simpl; by rewrite ?Hself, ?app_nil_r.
Qed.

Lemma muteSoundboards_run settings c h :
  exists es,
    Plugin.actions.muteSoundboards settings c h
    = (tt,
       with_soundboardMutes
         (soundboardMutes h ∪ user_ids (roster false c h)) h,
       GetVoiceStatesForChannel (id c) :: es)
    /\ forall e, e ∈ es ->
         exists user, e = ToggleLocalSoundboardMute user
                      /\ user ∈ userId <$> roster false c h
                      /\ user ∉ soundboardMutes h.
Proof.
  destruct (forEach_or_else soundboardMutes with_soundboardMutes
              ToggleLocalSoundboardMute
              ltac:(done) ltac:(done) with_soundboardMutes_get
              (roster false c h) h) as (es & Hrun & Hes).
  exists es. split; [|done].
  unfold Plugin.actions.muteSoundboards, mbind, M_bind.
  rewrite getVoiceStates_run.
  unfold SoundboardStore.isLocalSoundboardMuted,
    ClientActions.toggleLocalSoundboardMute.
  by rewrite Hrun.
Qed.

Lemma unmuteSoundboards_run settings c h :
  exists es,
    Plugin.actions.unmuteSoundboards settings c h
    = (tt,
       with_soundboardMutes
         (soundboardMutes h ∖ user_ids (roster false c h)) h,
       GetVoiceStatesForChannel (id c) :: es)
    /\ forall e, e ∈ es ->
         exists user, e = ToggleLocalSoundboardMute user
                      /\ user ∈ userId <$> roster false c h
                      /\ user ∈ soundboardMutes h.
Proof.
  destruct (forEach_and_also soundboardMutes with_soundboardMutes
              ToggleLocalSoundboardMute
              ltac:(done) ltac:(done) with_soundboardMutes_get
              (roster false c h) h) as (es & Hrun & Hes).
  exists es. split; [|done].
  unfold Plugin.actions.unmuteSoundboards, mbind, M_bind.
  rewrite getVoiceStates_run.
  unfold SoundboardStore.isLocalSoundboardMuted,
    ClientActions.toggleLocalSoundboardMute.
  by rewrite Hrun.
Qed.

(** The roster of the local actions: the present members other than the
    invoking user. *)
Lemma roster_others c h :
  roster false c h
  = filter (fun state => userId state <> currentUser h)
           (Object_values (default [] (voiceStates h !! id c))).
Proof.
  unfold roster. apply list_filter_iff. intros s.
  split; [by intros [?|?] | by right].
Qed.

Lemma not_in_others c h :
  currentUser h ∉ userId <$> roster false c h.
Proof.
  rewrite roster_others, list_elem_of_fmap. intros (s & Hs & Hin).
  apply list_elem_of_filter in Hin as [Hne _]. by destruct Hne.
Qed.

Lemma union_twice (X R : gset string) : X ∪ R ∪ R = X ∪ R.
Proof. by rewrite <- (assoc_L (∪)), (idemp_L (∪)). Qed.

Lemma difference_twice (X R : gset string) : X ∖ R ∖ R = X ∖ R.
Proof.
  apply set_eq. intros x. rewrite !elem_of_difference. tauto.
Qed.

(** *** Doing a local action twice *)

Lemma mute_twice settings c h :
  (Plugin.actions.mute settings c (Plugin.actions.mute settings c h).1.2).1.2
  = (Plugin.actions.mute settings c h).1.2.
Proof.
  destruct (mute_run settings c h) as (es & -> & _). cbn [fst snd].
  destruct (mute_run settings c
              ((if includeSelfInActions settings && negb (selfMute h)
                then with_selfMute true else fun h => h)
                 (with_localMutes
                    (localMutes h ∪ user_ids (roster false c h)) h)))
    as (es' & -> & _).
  cbn [fst snd].
  destruct (includeSelfInActions settings), (selfMute h) eqn:Hself;
    unfold roster, with_selfMute, with_localMutes; simpl;
    rewrite ?Hself; simpl; by rewrite union_twice.
Qed.

Lemma unmute_twice settings c h :
  (Plugin.actions.unmute settings c
     (Plugin.actions.unmute settings c h).1.2).1.2
  = (Plugin.actions.unmute settings c h).1.2.
Proof.
  destruct (unmute_run settings c h) as (es & -> & _). cbn [fst snd].
  destruct (unmute_run settings c
              ((if includeSelfInActions settings && selfMute h
                then with_selfMute false else fun h => h)
                 (with_localMutes
                    (localMutes h ∖ user_ids (roster false c h)) h)))
    as (es' & -> & _).
  cbn [fst snd].
  destruct (includeSelfInActions settings), (selfMute h) eqn:Hself;
    unfold roster, with_selfMute, with_localMutes; simpl;
    rewrite ?Hself; simpl; by rewrite difference_twice.
Qed.

Lemma muteSoundboards_twice settings c h :
  (Plugin.actions.muteSoundboards settings c
     (Plugin.actions.muteSoundboards settings c h).1.2).1.2
  = (Plugin.actions.muteSoundboards settings c h).1.2.
Proof.
  destruct (muteSoundboards_run settings c h) as (es & -> & _).
  cbn [fst snd].
  destruct (muteSoundboards_run settings c
              (with_soundboardMutes
                 (soundboardMutes h ∪ user_ids (roster false c h)) h))
    as (es' & -> & _).
  cbn [fst snd]. unfold roster, with_soundboardMutes. simpl.
  by rewrite union_twice.
Qed.

Lemma unmuteSoundboards_twice settings c h :
  (Plugin.actions.unmuteSoundboards settings c
     (Plugin.actions.unmuteSoundboards settings c h).1.2).1.2
  = (Plugin.actions.unmuteSoundboards settings c h).1.2.
Proof.
  destruct (unmuteSoundboards_run settings c h) as (es & -> & _).
  cbn [fst snd].
  destruct (unmuteSoundboards_run settings c
              (with_soundboardMutes
                 (soundboardMutes h ∖ user_ids (roster false c h)) h))
    as (es' & -> & _).
  cbn [fst snd]. unfold roster, with_soundboardMutes. simpl.
  by rewrite difference_twice.
Qed.

(** ** Claims about the local actions *)

Lemma elem_of_toggles (ev : string -> Event) (first : Event)
    (es : list Event) (P : string -> Prop) (user : string) :
  (forall u v, ev u = ev v -> u = v) ->
  first <> ev user ->
  (forall e, e ∈ es -> exists u, e = ev u /\ P u) ->
  ev user ∈ first :: es -> P user.
Proof.
  intros Hinj Hfirst Hes Hin.
  apply elem_of_cons in Hin as [Heq|Hin]; [by destruct Hfirst|].
  destruct (Hes _ Hin) as (u & Heq & Hu).
  by rewrite (Hinj _ _ Heq).
Qed.

(** C7.  Whatever the channel and whatever [includeSelfInActions] is,
    [muteSoundboards] and [unmuteSoundboards] never toggle the soundboard
    mute of the invoking user: every toggle is for a present member other
    than the invoking user, and the soundboard mutes end up as those of
    before with all of these members put in, or taken out. *)
Theorem soundboards_spare_self (settings : Settings) (c : Channel) (h : Host) :
  let others :=
    filter (fun state => userId state <> currentUser h)
           (Object_values (default [] (voiceStates h !! id c))) in
  (ToggleLocalSoundboardMute (currentUser h)
     ∉ (Plugin.actions.muteSoundboards settings c h).2)
  /\ (ToggleLocalSoundboardMute (currentUser h)
        ∉ (Plugin.actions.unmuteSoundboards settings c h).2)
  /\ (forall user,
        ToggleLocalSoundboardMute user
          ∈ (Plugin.actions.muteSoundboards settings c h).2
        \/ ToggleLocalSoundboardMute user
             ∈ (Plugin.actions.unmuteSoundboards settings c h).2 ->
        user ∈ userId <$> others)
  /\ soundboardMutes (Plugin.actions.muteSoundboards settings c h).1.2
     = soundboardMutes h ∪ user_ids others
  /\ soundboardMutes (Plugin.actions.unmuteSoundboards settings c h).1.2
     = soundboardMutes h ∖ user_ids others.
Proof.
  intros others. subst others. rewrite <- roster_others.
  destruct (muteSoundboards_run settings c h) as (es1 & -> & Hes1).
  destruct (unmuteSoundboards_run settings c h) as (es2 & -> & Hes2).
  cbn [fst snd].
  assert (forall user,
            ToggleLocalSoundboardMute user
              ∈ GetVoiceStatesForChannel (id c) :: es1
            \/ ToggleLocalSoundboardMute user
                 ∈ GetVoiceStatesForChannel (id c) :: es2 ->
            user ∈ userId <$> roster false c h) as Hroster.
  { intros user [Hin|Hin];
      apply (elem_of_toggles ToggleLocalSoundboardMute _ _
               (fun u => u ∈ userId <$> roster false c h)) in Hin;
      try done; try (by intros u v [=]).
    - intros e He. destruct (Hes1 e He) as (u & -> & Hu & _). eauto.
    - intros e He. destruct (Hes2 e He) as (u & -> & Hu & _). eauto. }
  split; [|split; [|split; [done|by split]]].
  - intros Hin. apply (not_in_others c h), Hroster. by left.
  - intros Hin. apply (not_in_others c h), Hroster. by right.
Qed.

(** [A] acts on the lobby with [B] and [C], self included: the
    soundboards of [B] and [C] are muted, that of [A] is not touched. *)
Lemma soundboards_spare_self_witness :
  let settings := with_includeSelfInActions true default_settings in
  let h := client "A" (Some "100"%string) ["A"; "B"; "C"]%string
             (fun _ _ => true) accepts in
  (ToggleLocalSoundboardMute "A"
     ∉ (Plugin.actions.muteSoundboards settings lobby h).2)
  /\ (Plugin.actions.muteSoundboards settings lobby h).2
     = [GetVoiceStatesForChannel "100"; ToggleLocalSoundboardMute "B";
        ToggleLocalSoundboardMute "C"].
Proof.
  intros settings h.
  destruct (soundboards_spare_self settings lobby h) as (Hmute & _).
  split; [exact Hmute|reflexivity].
Defined.

(** The steps of [mute] and [unmute]: the read, the members' toggles,
    then the self-mute toggle if it is due. *)
Lemma member_toggle_in (first : Event) (es : list Event) (due : bool)
    (user : string) :
  first <> ToggleLocalMute user ->
  ToggleLocalMute user
    ∈ first :: es ++ (if due then [ToggleSelfMute] else []) ->
  ToggleLocalMute user ∈ es.
Proof.
  intros Hfirst. rewrite elem_of_cons, elem_of_app.
  intros [Heq|[Hin|Hin]]; [by destruct Hfirst|done|].
  destruct due; [|by apply elem_of_nil in Hin].
  by apply list_elem_of_singleton in Hin.
Qed.

Lemma self_toggle_in (first : Event) (es : list Event) (due : bool)
    (P : string -> Prop) :
  first <> ToggleSelfMute ->
  (forall e, e ∈ es -> exists user, e = ToggleLocalMute user /\ P user) ->
  (ToggleSelfMute ∈ first :: es ++ (if due then [ToggleSelfMute] else []))
  <-> due = true.
Proof.
  intros Hfirst Hes. rewrite elem_of_cons, elem_of_app. split.
  - intros [Heq|[Hin|Hin]]; [by destruct Hfirst| |].
    + by destruct (Hes _ Hin) as (u & [=] & _).
    + destruct due; [done|by apply elem_of_nil in Hin].
  - intros ->. right. right. by apply list_elem_of_singleton.
Qed.

(** C9.  Doing a local action a second time changes nothing: the client
    is left as after the first time, for [mute], [unmute],
    [muteSoundboards] and [unmuteSoundboards].  A member's toggle is
    called only when that member is not yet in the state the action aims
    at, and the self-mute toggle only when [includeSelfInActions] is set
    and the invoking user is not yet in that state. *)
Theorem local_actions_idempotent (settings : Settings) (c : Channel)
    (h : Host) :
  ((Plugin.actions.mute settings c
      (Plugin.actions.mute settings c h).1.2).1.2
   = (Plugin.actions.mute settings c h).1.2
   /\ (Plugin.actions.unmute settings c
         (Plugin.actions.unmute settings c h).1.2).1.2
      = (Plugin.actions.unmute settings c h).1.2
   /\ (Plugin.actions.muteSoundboards settings c
         (Plugin.actions.muteSoundboards settings c h).1.2).1.2
      = (Plugin.actions.muteSoundboards settings c h).1.2
   /\ (Plugin.actions.unmuteSoundboards settings c
         (Plugin.actions.unmuteSoundboards settings c h).1.2).1.2
      = (Plugin.actions.unmuteSoundboards settings c h).1.2)
  /\ (forall user,
        (ToggleLocalMute user ∈ (Plugin.actions.mute settings c h).2 ->
         user ∉ localMutes h)
        /\ (ToggleLocalMute user ∈ (Plugin.actions.unmute settings c h).2 ->
            user ∈ localMutes h)
        /\ (ToggleLocalSoundboardMute user
              ∈ (Plugin.actions.muteSoundboards settings c h).2 ->
            user ∉ soundboardMutes h)
        /\ (ToggleLocalSoundboardMute user
              ∈ (Plugin.actions.unmuteSoundboards settings c h).2 ->
            user ∈ soundboardMutes h))
  /\ ((ToggleSelfMute ∈ (Plugin.actions.mute settings c h).2) <->
      (includeSelfInActions settings = true /\ selfMute h = false))
  /\ ((ToggleSelfMute ∈ (Plugin.actions.unmute settings c h).2) <->
      (includeSelfInActions settings = true /\ selfMute h = true)).
Proof.
  destruct (mute_run settings c h) as (es1 & Hrun1 & Hes1).
  destruct (unmute_run settings c h) as (es2 & Hrun2 & Hes2).
  destruct (muteSoundboards_run settings c h) as (es3 & Hrun3 & Hes3).
  destruct (unmuteSoundboards_run settings c h) as (es4 & Hrun4 & Hes4).
  split; [|split; [|split]].
  - split; [apply mute_twice|]. split; [apply unmute_twice|].
    split; [apply muteSoundboards_twice|apply unmuteSoundboards_twice].
  - intros user. rewrite Hrun1, Hrun2, Hrun3, Hrun4. cbn [fst snd].
    split; [|split; [|split]]; intros Hin.
    + apply member_toggle_in in Hin; [|done].
      by destruct (Hes1 _ Hin) as (u & [= <-] & _ & Hu).
    + apply member_toggle_in in Hin; [|done].
      by destruct (Hes2 _ Hin) as (u & [= <-] & _ & Hu).
    + apply elem_of_cons in Hin as [[=]|Hin].
      by destruct (Hes3 _ Hin) as (u & [= <-] & _ & Hu).
    + apply elem_of_cons in Hin as [[=]|Hin].
      by destruct (Hes4 _ Hin) as (u & [= <-] & _ & Hu).
  - rewrite Hrun1. cbn [snd].
    rewrite (self_toggle_in _ es1 _ (fun u => u ∉ localMutes h)); [|done|].
    + rewrite andb_true_iff, negb_true_iff. done.
    + intros e He. destruct (Hes1 e He) as (u & -> & _ & Hu). eauto.
  - rewrite Hrun2. cbn [snd].
    rewrite (self_toggle_in _ es2 _ (fun u => u ∈ localMutes h)); [|done|].
    + by rewrite andb_true_iff.
    + intros e He. destruct (Hes2 e He) as (u & -> & _ & Hu). eauto.
Qed.

(** [A] acts on the lobby with [B] and [C], self included: [B] and [C]
    are muted locally, [A] is self-muted, and a second [mute] leaves the
    client as it is. *)
Lemma local_actions_idempotent_witness :
  let settings := with_includeSelfInActions true default_settings in
  let h := client "A" (Some "100"%string) ["A"; "B"; "C"]%string
             (fun _ _ => true) accepts in
  let once := (Plugin.actions.mute settings lobby h).1.2 in
  (Plugin.actions.mute settings lobby once).1.2 = once
  /\ (Plugin.actions.mute settings lobby h).2
     = [GetVoiceStatesForChannel "100"; ToggleLocalMute "B";
        ToggleLocalMute "C"; ToggleSelfMute]
  /\ (Plugin.actions.mute settings lobby once).2
     = [GetVoiceStatesForChannel "100"].
Proof.
  intros settings h once.
  destruct (local_actions_idempotent settings lobby h) as [(Htwice & _) _].
  split; [exact Htwice|]. split; vm_compute; reflexivity.
Defined.

(** ** Claims about the menu *)

(** The callback of the second file, case by case: the menu is left as
    it is unless the channel is there, is a voice or a stage channel, and
    has a member that counts; otherwise the "Voice Tools" item goes in
    before the last item, and what is under "Server actions" follows the
    three permissions. *)
Lemma VoiceChannelContext_gating (settings : Settings)
    (children : list MenuNode) (channel : option Channel) (h : Host) :
  let result := (Plugin.VoiceChannelContext settings children channel h).1.1 in
  match channel with
  | None => result = children
  | Some c =>
      if decide ((type c = 2 \/ type c = 13)
                 /\ roster (includeSelfInActions settings) c h <> [])
      then exists item,
             result = splice_before_last children item
             /\ node_id item = Some "voice-tools"%string
             /\ group_items "Server actions" item
                = when (can h MUTE_MEMBERS (id c)) mute_items
                  ++ when (can h DEAFEN_MEMBERS (id c)) deafen_items
                  ++ when (can h MOVE_MEMBERS (id c)) move_items
      else result = children
  end.
Proof.
  destruct channel as [c|]; [|done]. cbv zeta.
  unfold Plugin.VoiceChannelContext.
  destruct (Z.eqb_spec (type c) 2) as [H2|H2];
    destruct (Z.eqb_spec (type c) 13) as [H13|H13]; simpl;
    try (rewrite decide_False by tauto; done).
  all: unfold mbind, M_bind; rewrite !getVoiceStates_run.
  all: destruct (roster (includeSelfInActions settings) c h) as [|s0 l] eqn:Hr;
    simpl; [by rewrite decide_False by tauto|].
  all: rewrite decide_True by (split; [tauto|done]).
  all: eexists; split; [reflexivity|]; split; [done|].
  all: by destruct (can h MUTE_MEMBERS (id c)),
            (can h DEAFEN_MEMBERS (id c)), (can h MOVE_MEMBERS (id c)).
Qed.

Lemma getVoiceStatesForChannel_run (channelId : string) (h : Host) :
  VoiceStateStore.getVoiceStatesForChannel channelId h
  = (default [] (voiceStates h !! channelId), h,
     [GetVoiceStatesForChannel channelId]).
Proof. reflexivity. Qed.

(** The callback of [index.tsx], case by case: the same conditions on
    the channel, every member counted, and all the server items whatever
    the permissions are. *)
Lemma IndexTsx_VoiceChannelContext_gating (children : list MenuNode)
    (channel : option Channel) (h : Host) :
  let result := (IndexTsx.VoiceChannelContext children channel h).1.1 in
  match channel with
  | None => result = children
  | Some c =>
      if decide ((type c = 2 \/ type c = 13)
                 /\ default [] (voiceStates h !! id c) <> [])
      then exists item,
             result = splice_before_last children item
             /\ node_id item = Some "voice-tools"%string
             /\ group_items "Server" item
                = mute_items ++ deafen_items ++ move_items
      else result = children
  end.
Proof.
  destruct channel as [c|]; [|done]. cbv zeta.
  unfold IndexTsx.VoiceChannelContext.
  destruct (Z.eqb_spec (type c) 2) as [H2|H2];
    destruct (Z.eqb_spec (type c) 13) as [H13|H13]; simpl;
    try (rewrite decide_False by tauto; done).
  all: unfold mbind, M_bind; rewrite getVoiceStatesForChannel_run.
  all: destruct (default [] (voiceStates h !! id c)) as [|s0 l] eqn:Hr;
    simpl; [by rewrite decide_False by tauto|].
  all: rewrite decide_True by (split; [tauto|done]).
  all: eexists; split; [reflexivity|]; by split.
Qed.

(** C8 fails on [index.tsx]: with [B] in the lobby and an invoking user
    who holds none of the three permissions, its callback still puts all
    six server items into the menu; the callback of the second file puts
    in none. *)
Theorem IndexTsx_server_items_without_permission :
  let h := client "A" None ["B"]%string (fun _ _ => false) accepts in
  (exists item,
     (IndexTsx.VoiceChannelContext [] (Some lobby) h).1.1 = [item]
     /\ group_items "Server" item
        = mute_items ++ deafen_items ++ move_items)
  /\ (exists item,
        (Plugin.VoiceChannelContext default_settings [] (Some lobby) h).1.1
        = [item]
        /\ group_items "Server actions" item = []).
Proof.
  split; eexists; split; reflexivity.
Qed.

(** * More of the code *)

(** ** The runner at its edges *)

Section RunnerEdges.
Context {W E T : Type}.
Variable settings : Settings.
Variable idle : Suspension -> W -> W.
Implicit Types (ps : list (Producer (W := W) (E := E) (T := T))) (w : W).
Implicit Types (rs : list T) (tr : list (Step E T)).

Lemma sleeps_app tr1 tr2 : sleeps (tr1 ++ tr2) = sleeps tr1 ++ sleeps tr2.
Proof. apply omap_app. Qed.

Lemma sleeps_iteration i (es : list E) (v : T) :
  sleeps (iteration settings i es v)
  = if pause_due settings i
    then [(i, (waitSeconds settings * 1000)%float)] else [].
Proof.
  unfold sleeps, iteration.
  rewrite omap_app. simpl. rewrite omap_app, omap_effects by done.
  by destruct (pause_due settings i).
Qed.

(** The pauses of a run with their lengths: each is
    [waitSeconds * 1000] milliseconds long. *)
Lemma loop_sleeps ps : forall i rs w out w' tr,
  loop settings idle i ps rs w = (out, w', tr) ->
  sleeps tr = (fun j => (j, (waitSeconds settings * 1000)%float)) <$> pauses tr.
Proof.
  induction ps as [|p ps IH]; intros i rs w out w' tr Hrun.
  - rewrite loop_nil in Hrun. by inversion Hrun.
  - apply loop_cons_inv in Hrun as (promise & w1 & es & Hp & Hrest).
    destruct promise as [v|e|].
    + destruct Hrest as (tr' & Hrun' & ->).
      rewrite sleeps_app, pauses_app, fmap_app, sleeps_iteration,
        pauses_iteration, (IH _ _ _ _ _ _ Hrun').
      by destruct (pause_due settings i).
    + destruct Hrest as [-> ->]. unfold sleeps, pauses. simpl.
      by rewrite !omap_app, !omap_effects.
    + destruct Hrest as [-> ->]. unfold sleeps, pauses. simpl.
      by rewrite !omap_effects.
Qed.

(** A run that never settles stopped at a producer whose promise never
    settles: it is the last one called, and the awaits before it all
    returned. *)
Lemma loop_pending ps : forall i rs w w' tr,
  loop settings idle i ps rs w = (Pending, w', tr) ->
  exists k p w0 w1 es,
    ps !! k = Some p /\ p w0 = (Pending, w1, es)
    /\ starts tr = seq i (S k)
    /\ fst <$> resolutions tr = seq i k
    /\ exists tr0, tr = tr0 ++ Started (i + k) :: map Effect es.
Proof.
  induction ps as [|p ps IH]; intros i rs w w' tr Hrun.
  - rewrite loop_nil in Hrun. by inversion Hrun.
  - apply loop_cons_inv in Hrun as (promise & w1 & es & Hp & Hrest).
    destruct promise as [v|e|].
    + destruct Hrest as (tr' & Hrun' & ->).
      destruct (IH _ _ _ _ _ Hrun')
        as (k & q & w0 & w2 & es' & Hq & Hq' & Hst & Hres & tr0 & ->).
      exists (S k), q, w0, w2, es'. split; [done|]. split; [done|].
      rewrite starts_app, starts_iteration, resolutions_app,
        resolutions_iteration, fmap_app, Hst, Hres.
      split; [done|]. split; [done|].
      exists (iteration settings i es v ++ tr0).
      rewrite <- app_assoc. by replace (i + S k)%nat with (S i + k)%nat by lia.
    + by destruct Hrest as [[=] _].
    + destruct Hrest as [_ ->].
      exists 0%nat, p, w, w1, es. split; [done|]. split; [done|].
      unfold starts, resolutions. simpl. rewrite !omap_effects by done.
      split; [done|]. split; [done|].
      exists []. by rewrite Nat.add_0_r.
Qed.
End RunnerEdges.

(** X1.  With [waitAfter = 0] the test [i % waitAfter === 0] compares
    [NaN] with 0: [runSequential] never pauses, however many producers it
    runs. *)
Theorem no_pause_when_waitAfter_is_zero {W E T : Type} (settings : Settings)
    (idle : Suspension -> W -> W)
    (ps : list (Producer (W := W) (E := E) (T := T))) (w : W) :
  waitAfter settings = 0 ->
  pauses (runSequential settings idle ps w).2 = [].
Proof.
  intros Hzero.
  destruct (runSequential settings idle ps w) as [[out w'] tr] eqn:Hrun.
  cbn [snd]. apply loop_shape in Hrun as (vs & _ & _ & -> & _).
  apply filter_none. intros j _.
  unfold pause_due, rem_is_zero. rewrite Hzero. simpl. tauto.
Qed.

Lemma no_pause_when_waitAfter_is_zero_witness :
  let settings :=
    {| waitAfter := 0; waitSeconds := 2%float;
       includeSelfInActions := false |} in
  let ps : list (Producer (W := unit) (E := Event) (T := JsValue)) :=
    replicate 3 (fun w => (Fulfilled JNull, w, [])) in
  pauses (runSequential settings (fun _ w => w) ps ()).2 = [].
Proof.
  intros settings ps.
  apply (no_pause_when_waitAfter_is_zero settings). reflexivity.
Defined.

(** X2.  When [runSequential] never settles, it is because it called a
    producer whose promise never settles: that producer is the last one
    called, the producers before it were all called and awaited, in
    order, and the ones after it are never called. *)
Theorem pending_producer_blocks {W E T : Type} (settings : Settings)
    (idle : Suspension -> W -> W)
    (ps : list (Producer (W := W) (E := E) (T := T))) (w w' : W)
    (tr : list (Step E T)) :
  runSequential settings idle ps w = (Pending, w', tr) ->
  exists k p w0 w1 es,
    ps !! k = Some p /\ p w0 = (Pending, w1, es)
    /\ starts tr = seq 0 (S k)
    /\ fst <$> resolutions tr = seq 0 k
    /\ exists tr0, tr = tr0 ++ Started k :: map Effect es.
Proof. intros Hrun. by apply loop_pending in Hrun. Qed.

Lemma pending_producer_blocks_witness :
  let ps : list (Producer (W := unit) (E := Event) (T := JsValue)) :=
    [fun w => (Fulfilled JNull, w, []); fun w => (Pending, w, []);
     fun w => (Fulfilled JNull, w, [])] in
  starts (runSequential default_settings (fun _ w => w) ps ()).2
  = [0; 1]%nat.
Proof.
  intros ps.
  destruct (runSequential default_settings (fun _ w => w) ps ())
    as [[out w'] tr] eqn:Hrun.
  assert (out = Pending) as -> by (vm_compute in Hrun; by inversion Hrun).
  destruct (pending_producer_blocks _ _ _ _ _ _ Hrun)
    as (k & p & w0 & w1 & es & Hk & _ & Hstarts & _).
  assert (k = 1%nat) as ->.
  { vm_compute in Hrun. inversion Hrun as [[Hw Htr]]. subst tr.
    vm_compute in Hstarts. destruct k as [|[|k]]; by inversion Hstarts. }
  cbn [snd]. exact Hstarts.
Defined.

(** ** The dispatcher: rosters, batches and pacing *)

(** The requests of any [sendPatch], against the roster of the moment it
    is called. *)
Lemma sendPatch_batch settings idle channel patch includeSelf h out h' tr :
  Plugin.sendPatch settings idle channel patch includeSelf h = (out, h', tr) ->
  let batch :=
    request_for channel patch <$> (userId <$> roster includeSelf channel h) in
  requests tr `prefix_of` batch
  /\ (forall rs, out = Fulfilled (Some rs) -> requests tr = batch).
Proof.
  intros Hsend batch.
  assert (batch = member_request channel patch <$> roster includeSelf channel h)
    as ->.
  { unfold batch. by rewrite <- list_fmap_compose. }
  destruct (sendPatch_requests _ _ _ _ _ _ _ _ _ Hsend) as (k & -> & Hall).
  split; [apply prefix_take|].
  intros rs Hrs. rewrite (Hall rs Hrs). apply take_ge. by rewrite length_fmap.
Qed.

(** X3.  When nobody is eligible (the channel has no voice states, or
    only the invoking user's and [includeSelf] is off), [sendPatch] reads
    the voice states and does nothing else: no request, no pause, nothing
    logged, the client as it was, and its promise fulfilled with no
    results. *)
Theorem sendPatch_nobody (settings : Settings)
    (idle : Suspension -> Host -> Host) (channel : Channel)
    (patch : list (string * JsValue)) (includeSelf : bool) (h : Host) :
  (forall state,
     state ∈ Object_values (default [] (voiceStates h !! id channel)) ->
     includeSelf = false /\ userId state = currentUser h) ->
  Plugin.sendPatch settings idle channel patch includeSelf h
  = (Fulfilled (Some []), h, [Effect (GetVoiceStatesForChannel (id channel))]).
Proof.
  intros Hnobody.
  assert (roster includeSelf channel h = []) as Hroster.
  { unfold roster. apply filter_none. intros state Hin.
    destruct (Hnobody state Hin) as [-> Hself]. intros [?|?]; done. }
  unfold Plugin.sendPatch, and_then.
  by rewrite getVoiceStates_run, Hroster.
Qed.

Lemma sendPatch_nobody_witness :
  Plugin.sendPatch default_settings undisturbed lobby
    [("mute"%string, JBool true)] false
    (client "A" (Some "100"%string) ["A"]%string (fun _ _ => true) refuses)
  = (Fulfilled (Some []),
     client "A" (Some "100"%string) ["A"]%string (fun _ _ => true) refuses,
     [Effect (GetVoiceStatesForChannel "100")]).
Proof.
  apply sendPatch_nobody. intros state Hin.
  vm_compute in Hin. apply list_elem_of_In in Hin.
  destruct Hin as [<-|[]]. by split.
Defined.

(** X4.  [getVoiceStates] leaves the client as it is.  With [includeSelf]
    it returns every voice state of the channel, in the store's order;
    without, the same list with the invoking user's states taken out and
    nothing else: the two differ exactly by the states of the invoking
    user. *)
Theorem getVoiceStates_self (channel : Channel) (h : Host) :
  let all := Object_values (default [] (voiceStates h !! id channel)) in
  let mine := filter (fun state => userId state = currentUser h) all in
  (Plugin.getVoiceStates channel true h).1.1 = all
  /\ (Plugin.getVoiceStates channel false h).1.1
     = filter (fun state => userId state <> currentUser h) all
  /\ (Plugin.getVoiceStates channel false h).1.1 `sublist_of` all
  /\ (Plugin.getVoiceStates channel false h).1.1 ++ mine ≡ₚ all
  /\ (forall includeSelf,
        (Plugin.getVoiceStates channel includeSelf h).1.2 = h).
Proof.
  intros all mine. rewrite !getVoiceStates_run. cbn [fst snd].
  rewrite roster_others. fold all.
  split; [|split; [done|split; [apply sublist_filter|split]]].
  - unfold roster. fold all. induction all as [|s l IH]; [done|].
    rewrite filter_cons_True by (by left). by rewrite IH.
  - unfold mine. clear mine.
    rewrite (list_filter_iff (fun state => userId state = currentUser h)
               (fun state => ~ userId state <> currentUser h)).
    + apply filter_app_complement.
    + intros state. split; [by intros -> ?|].
      intros Hnn. by destruct (decide (userId state = currentUser h)).
  - intros includeSelf. by rewrite getVoiceStates_run.
Qed.

(** X5.  [serverUnmute], [serverDeafen] and [serverUndeafen] send
    [{mute: false}], [{deaf: true}] and [{deaf: false}] to the members of
    the roster that [includeSelfInActions] selects, one request per member
    and in the store's order: what goes out is a first part of that
    batch, and all of it when the batch ends fulfilled. *)
Theorem other_server_actions (settings : Settings)
    (idle : Suspension -> Host -> Host) (c : Channel) (h : Host) :
  Forall
    (fun '(action, patch) =>
       let '(out, _, tr) := action settings idle c h in
       let batch :=
         request_for c patch
           <$> (userId <$> roster (includeSelfInActions settings) c h) in
       requests tr `prefix_of` batch
       /\ (forall rs : list JsValue,
             out = Fulfilled (Some rs) -> requests tr = batch))
    [ (Plugin.actions.serverUnmute, [("mute"%string, JBool false)]);
      (Plugin.actions.serverDeafen, [("deaf"%string, JBool true)]);
      (Plugin.actions.serverUndeafen, [("deaf"%string, JBool false)]) ].
Proof.
  repeat constructor.
  - destruct (Plugin.actions.serverUnmute settings idle c h)
      as [[out h'] tr] eqn:Hrun.
    by apply sendPatch_batch in Hrun.
  - destruct (Plugin.actions.serverDeafen settings idle c h)
      as [[out h'] tr] eqn:Hrun.
    by apply sendPatch_batch in Hrun.
  - destruct (Plugin.actions.serverUndeafen settings idle c h)
      as [[out h'] tr] eqn:Hrun.
    by apply sendPatch_batch in Hrun.
Qed.

(** [serverDeafen] in the lobby with [A], [B] and [C], invoked by [A]:
    [{deaf: true}] goes out for [B] and [C]. *)
Lemma other_server_actions_witness :
  let h := client "A" None ["A"; "B"; "C"]%string (fun _ _ => true) accepts in
  requests (Plugin.actions.serverDeafen default_settings undisturbed lobby h).2
  = request_for lobby [("deaf"%string, JBool true)] <$> ["B"; "C"]%string.
Proof.
  intros h.
  pose proof (other_server_actions default_settings undisturbed lobby h)
    as Hall.
  apply Forall_cons in Hall as [_ Hall].
  apply Forall_cons in Hall as [Hdeafen _].
  destruct (Plugin.actions.serverDeafen default_settings undisturbed lobby h)
    as [[out h'] tr] eqn:Hrun.
  destruct Hdeafen as [_ Hbatch].
  assert (exists rs, out = Fulfilled (Some rs)) as [rs Hout].
  { vm_compute in Hrun. inversion Hrun. eauto. }
  cbn [snd]. rewrite (Hbatch rs Hout). reflexivity.
Defined.

Lemma moveTo_inv settings idle c newChannel h out h' tr :
  Plugin.actions.moveTo settings idle c newChannel h = (out, h', tr) ->
  (voiceChannelId h = Some (id c)
   /\ exists tr',
        Plugin.sendPatch settings idle c
          [("channel_id"%string, JString (id newChannel))] false
          (with_voiceChannelId (Some (id newChannel)) h) = (out, h', tr')
        /\ tr = Effect (ChannelSelectVoiceChannel (id newChannel)) :: tr')
  \/ (voiceChannelId h <> Some (id c)
      /\ Plugin.sendPatch settings idle c
           [("channel_id"%string, JString (id newChannel))] false h
         = (out, h', tr)).
Proof.
  unfold Plugin.actions.moveTo, and_then.
  unfold SelectedChannelStore.getVoiceChannelId, gets, mbind, M_bind.
  destruct (decide (voiceChannelId h = Some (id c))) as [Heq|Hne].
  - simpl.
    destruct (Plugin.sendPatch _ _ _ _ _ _) as [[out0 h0] tr0] eqn:Hsend.
    intros [= <- <- <-]. left. split; [done|]. by exists tr0.
  - simpl.
    destruct (Plugin.sendPatch _ _ _ _ _ _) as [[out0 h0] tr0] eqn:Hsend.
    intros [= <- <- <-]. right. by split.
Qed.

(** The steps of [sendPatch] are no direct calls on the voice channel. *)
Lemma sendPatch_no_channel_call settings idle c patch includeSelf h out h' tr :
  Plugin.sendPatch settings idle c patch includeSelf h = (out, h', tr) ->
  filter (fun s => is_channel_call s) tr = [].
Proof.
  intros Hsend.
  apply sendPatch_inv in Hsend as (p & tr_run & Hrun & _ & ->).
  apply filter_none. intros s Hs.
  rewrite elem_of_cons, elem_of_app, list_elem_of_fmap in Hs.
  destruct Hs as [->|[Hs|(e & -> & He)]]; [by intros []| |].
  - destruct s as [i|e|i v|i e|i ms]; try by intros [].
    apply elem_of_effects in Hs.
    destruct (loop_patch_effects _ _ _ _ _ _ _ _ _ _ _ Hrun) as (k & Heff & _).
    rewrite Heff in Hs.
    apply list_elem_of_fmap in Hs as (r & -> & Hr). by intros [].
  - destruct p as [vs|e0|]; simpl in He; try by apply elem_of_nil in He.
    apply list_elem_of_singleton in He as ->. by intros [].
Qed.

(** X6.  [moveTo] does the same for every value of
    [includeSelfInActions].  When the client is connected to the channel
    that is emptied, its first step is the one direct call that switches
    the client to the new channel; otherwise it makes no direct call.
    The batch is [{channel_id: newChannel.id}] for every present member
    other than the invoking user, in the store's order: what goes out is
    a first part of it, all of it when the batch ends fulfilled. *)
Theorem moveTo_steps (settings : Settings) (idle : Suspension -> Host -> Host)
    (c newChannel : Channel) (h h' : Host)
    (out : Settled (option (list JsValue))) (tr : Trace) :
  Plugin.actions.moveTo settings idle c newChannel h = (out, h', tr) ->
  let batch :=
    request_for c [("channel_id"%string, JString (id newChannel))]
      <$> (userId <$> roster false c h) in
  (forall flag,
     Plugin.actions.moveTo (with_includeSelfInActions flag settings)
       idle c newChannel h = (out, h', tr))
  /\ filter (fun s => is_channel_call s) tr
     = (if decide (voiceChannelId h = Some (id c))
        then [Effect (ChannelSelectVoiceChannel (id newChannel))] else [])
  /\ (voiceChannelId h = Some (id c) ->
      head tr = Some (Effect (ChannelSelectVoiceChannel (id newChannel))))
  /\ requests tr `prefix_of` batch
  /\ (forall rs, out = Fulfilled (Some rs) -> requests tr = batch).
Proof.
  intros Hrun batch. split; [intros flag; exact Hrun|].
  apply moveTo_inv in Hrun as [(Hin & tr' & Hsend & ->)|[Hout Hsend]].
  - rewrite decide_True by done.
    pose proof (sendPatch_no_channel_call _ _ _ _ _ _ _ _ _ Hsend) as Hnone.
    apply sendPatch_batch in Hsend as [Hprefix Hall].
    split; [|split; [done|by split]].
    rewrite (filter_cons_True (fun s => is_channel_call s)) by done.
    f_equal. exact Hnone.
  - rewrite decide_False by done.
    pose proof (sendPatch_no_channel_call _ _ _ _ _ _ _ _ _ Hsend) as Hnone.
    apply sendPatch_batch in Hsend as [Hprefix Hall].
    split; [exact Hnone|]. split; [done|]. by split.
Qed.

Lemma moveTo_steps_witness :
  let h := client "A" (Some "100"%string) ["A"; "B"; "C"]%string
             (fun _ _ => true) accepts in
  requests (Plugin.actions.moveTo default_settings undisturbed lobby stage h).2
  = request_for lobby [("channel_id"%string, JString "200")]
      <$> ["B"; "C"]%string.
Proof.
  intros h.
  destruct (Plugin.actions.moveTo default_settings undisturbed lobby stage h)
    as [[out h'] tr] eqn:Hrun.
  destruct (moveTo_steps _ _ _ _ _ _ _ _ Hrun) as (_ & _ & _ & _ & Hall).
  assert (exists rs, out = Fulfilled (Some rs)) as [rs Hout].
  { vm_compute in Hrun. inversion Hrun. eauto. }
  cbn [snd]. rewrite (Hall rs Hout). reflexivity.
Defined.

(** X7.  The batch of [disconnect] is [{channel_id: null}] for every
    present member other than the invoking user, in the store's order,
    whatever [includeSelfInActions] is: what goes out is a first part of
    it, all of it when the batch ends fulfilled; and the only direct call
    it makes is the one that leaves the voice channel, when the client is
    connected to that channel. *)
Theorem disconnect_batch (settings : Settings)
    (idle : Suspension -> Host -> Host) (c : Channel) (h h' : Host)
    (out : Settled (option (list JsValue))) (tr : Trace) :
  Plugin.actions.disconnect settings idle c h = (out, h', tr) ->
  let batch :=
    request_for c [("channel_id"%string, JNull)]
      <$> (userId <$> roster false c h) in
  requests tr `prefix_of` batch
  /\ (forall rs, out = Fulfilled (Some rs) -> requests tr = batch)
  /\ filter (fun s => is_channel_call s) tr
     = (if decide (voiceChannelId h = Some (id c))
        then [Effect ChannelDisconnect] else []).
Proof.
  intros Hrun batch.
  apply disconnect_inv in Hrun as [(Hin & tr' & Hsend & ->)|[Hout Hsend]].
  - rewrite decide_True by done.
    pose proof (sendPatch_no_channel_call _ _ _ _ _ _ _ _ _ Hsend) as Hnone.
    apply sendPatch_batch in Hsend as [Hprefix Hall].
    split; [done|]. split; [done|].
    rewrite (filter_cons_True (fun s => is_channel_call s)) by done.
    f_equal. exact Hnone.
  - rewrite decide_False by done.
    pose proof (sendPatch_no_channel_call _ _ _ _ _ _ _ _ _ Hsend) as Hnone.
    apply sendPatch_batch in Hsend as [Hprefix Hall].
    split; [done|]. split; [done|]. exact Hnone.
Qed.

Lemma disconnect_batch_witness :
  let h := client "A" None ["A"; "B"; "C"]%string (fun _ _ => true) accepts in
  requests (Plugin.actions.disconnect default_settings undisturbed lobby h).2
  = request_for lobby [("channel_id"%string, JNull)] <$> ["B"; "C"]%string.
Proof.
  intros h.
  destruct (Plugin.actions.disconnect default_settings undisturbed lobby h)
    as [[out h'] tr] eqn:Hrun.
  destruct (disconnect_batch _ _ _ _ _ _ _ Hrun) as (_ & Hall & _).
  assert (exists rs, out = Fulfilled (Some rs)) as [rs Hout].
  { vm_compute in Hrun. inversion Hrun. eauto. }
  cbn [snd]. rewrite (Hall rs Hout). reflexivity.
Defined.

(** X8.  The pacing of a batch that goes through, for [waitAfter >= 1]:
    with [n] members in the roster there are [n] results, and the pauses
    are after the requests whose zero-based index [waitAfter] divides
    (the first request included), each with the delay
    [settings.store.waitSeconds * 1000], the binary64 product, handed to
    [setTimeout]. *)
Theorem sendPatch_pacing (settings : Settings)
    (idle : Suspension -> Host -> Host) (c : Channel)
    (patch : list (string * JsValue)) (includeSelf : bool) (h h' : Host)
    (rs : list JsValue) (tr : Trace) :
  1 <= waitAfter settings ->
  Plugin.sendPatch settings idle c patch includeSelf h
  = (Fulfilled (Some rs), h', tr) ->
  let n := length (roster includeSelf c h) in
  length rs = n
  /\ sleeps tr
     = (fun i => (i, (waitSeconds settings * 1000)%float))
         <$> filter (fun i => Z.of_nat i `mod` waitAfter settings = 0)
                    (seq 0 n)
  /\ Z.of_nat (length (sleeps tr))
     = pause_count (Z.of_nat n) (waitAfter settings).
Proof.
  intros Hb Hsend n.
  apply sendPatch_inv in Hsend as (p & tr_run & Hrun & Hout & ->).
  destruct p as [vs|e|]; simpl in Hout; try discriminate.
  injection Hout as ->.
  assert (sleeps (Effect (GetVoiceStatesForChannel (id c))
                    :: tr_run ++ map Effect
                         (catch (Fulfilled vs)
                            (console.error
                               "VoiceChatUtilities failed to run")).2)
          = sleeps tr_run) as ->.
  { simpl. by rewrite app_nil_r. }
  unfold runSequential in Hrun.
  rewrite (loop_sleeps _ _ _ _ _ _ _ _ _ Hrun).
  apply loop_shape in Hrun as (vs' & Hlen & Hres & Hpause & Hall).
  destruct (Hall vs eq_refl) as [Hvs Hn]. simpl in Hvs. subst vs'.
  unfold Plugin.patch_producers in Hn. rewrite length_map in Hn.
  fold n in Hn. rewrite Hpause, Hn, filter_pause_due by done.
  split; [done|]. split; [done|].
  rewrite length_fmap. by apply count_divisible.
Qed.

(** With the default settings the one pause of a batch of three is
    2000 ms long; with [waitSeconds] set to 2.01 (the double
    [0x1.0147ae147ae14p+1]) it is 2009.9999999999998 ms long (the double
    [0x1.f67ffffffffffp+10]), not 2010. *)
Lemma sendPatch_pacing_witness :
  let h := client "A" None ["A"; "B"; "C"]%string (fun _ _ => true) accepts in
  let slow :=
    {| waitAfter := 5; waitSeconds := 0x1.0147ae147ae14p+1%float;
       includeSelfInActions := false |} in
  sleeps (Plugin.sendPatch default_settings undisturbed lobby
            [("mute"%string, JBool true)] true h).2
  = [(0%nat, 2000%float)]
  /\ sleeps (Plugin.sendPatch slow undisturbed lobby
               [("mute"%string, JBool true)] true h).2
     = [(0%nat, 0x1.f67ffffffffffp+10%float)].
Proof.
  intros h slow. split.
  - destruct (Plugin.sendPatch default_settings undisturbed lobby
                [("mute"%string, JBool true)] true h)
      as [[out h'] tr] eqn:Hrun.
    assert (exists rs, out = Fulfilled (Some rs)) as [rs ->].
    { vm_compute in Hrun. inversion Hrun. eauto. }
    destruct (sendPatch_pacing default_settings undisturbed lobby _ true h h'
                rs tr ltac:(simpl; lia) Hrun) as (_ & Hsleeps & _).
    cbn [snd]. rewrite Hsleeps. reflexivity.
  - destruct (Plugin.sendPatch slow undisturbed lobby
                [("mute"%string, JBool true)] true h)
      as [[out h'] tr] eqn:Hrun.
    assert (exists rs, out = Fulfilled (Some rs)) as [rs ->].
    { vm_compute in Hrun. inversion Hrun. eauto. }
    destruct (sendPatch_pacing slow undisturbed lobby _ true h h'
                rs tr ltac:(simpl; lia) Hrun) as (_ & Hsleeps & _).
    cbn [snd]. rewrite Hsleeps. reflexivity.
Defined.

(** ** The local actions *)

Lemma union_then_difference (X R : gset string) : (X ∪ R) ∖ R = X ∖ R.
Proof.
  apply set_eq. intros x. rewrite !elem_of_difference, elem_of_union. tauto.
Qed.

Lemma difference_then_union (X R : gset string) : X ∖ R ∪ R = X ∪ R.
Proof.
  apply set_eq. intros x. rewrite !elem_of_union, elem_of_difference.
  destruct (decide (x ∈ R)); tauto.
Qed.

Lemma elem_of_user_ids (user : string) (states : list VoiceState) :
  user ∈ user_ids states <-> user ∈ userId <$> states.
Proof. unfold user_ids. by rewrite elem_of_list_to_set. Qed.

(** X9.  Where [mute] and [unmute] leave the client.  After [mute] the
    locally muted users are the old ones and every present member other
    than the invoking user, and the client is self-muted when it was
    before or [includeSelfInActions] is set; after [unmute] they are the
    old ones that are not such members, and the client is self-muted
    when it was before and [includeSelfInActions] is not set.  The
    invoking user's own entry among the local mutes is never changed,
    and neither is any other part of the client. *)
Theorem mute_unmute_state (settings : Settings) (c : Channel) (h : Host) :
  let others := userId <$> roster false c h in
  let muted := (Plugin.actions.mute settings c h).1.2 in
  let unmuted := (Plugin.actions.unmute settings c h).1.2 in
  (forall user,
     user ∈ localMutes muted <-> (user ∈ localMutes h \/ user ∈ others))
  /\ selfMute muted = selfMute h || includeSelfInActions settings
  /\ (forall user,
        user ∈ localMutes unmuted <-> (user ∈ localMutes h /\ user ∉ others))
  /\ selfMute unmuted = selfMute h && negb (includeSelfInActions settings)
  /\ (currentUser h ∈ localMutes muted <-> currentUser h ∈ localMutes h)
  /\ (currentUser h ∈ localMutes unmuted <-> currentUser h ∈ localMutes h)
  /\ with_selfMute (selfMute h) (with_localMutes (localMutes h) muted) = h
  /\ with_selfMute (selfMute h) (with_localMutes (localMutes h) unmuted) = h.
Proof.
  intros others muted unmuted. subst muted unmuted.
  destruct (mute_run settings c h) as (es & -> & _).
  destruct (unmute_run settings c h) as (es' & -> & _).
  cbn [fst snd].
  pose proof (not_in_others c h) as Hme. fold others in Hme.
  assert (forall b X,
            localMutes ((if b : bool then with_selfMute true else fun h => h)
                          (with_localMutes X h)) = X) as Hm
    by (by intros []).
  assert (forall b X,
            localMutes ((if b : bool then with_selfMute false else fun h => h)
                          (with_localMutes X h)) = X) as Hu
    by (by intros []).
  rewrite Hm, Hu.
  split; [intros user; by rewrite elem_of_union, elem_of_user_ids|].
  split.
  { destruct (includeSelfInActions settings), (selfMute h) eqn:Hself;
      simpl; by rewrite ?Hself. }
  split; [intros user; by rewrite elem_of_difference, elem_of_user_ids|].
  split.
  { destruct (includeSelfInActions settings), (selfMute h) eqn:Hself;
      simpl; by rewrite ?Hself. }
  split; [rewrite elem_of_union, elem_of_user_ids; tauto|].
  split; [rewrite elem_of_difference, elem_of_user_ids; tauto|].
  split; destruct h as [? ? ? ? self ? ? ? ? ?],
           (includeSelfInActions settings), self; reflexivity.
Qed.

(** X10.  Doing the opposite afterwards: [unmute] after [mute] leaves
    the client as [unmute] alone does, and [mute] after [unmute] as
    [mute] alone does; so a member who was muted by hand before is
    unmuted by "mute all" followed by "unmute all".  The same holds of
    the two soundboard actions. *)
Theorem local_actions_overwrite (settings : Settings) (c : Channel)
    (h : Host) :
  (Plugin.actions.unmute settings c (Plugin.actions.mute settings c h).1.2).1.2
  = (Plugin.actions.unmute settings c h).1.2
  /\ (Plugin.actions.mute settings c
        (Plugin.actions.unmute settings c h).1.2).1.2
     = (Plugin.actions.mute settings c h).1.2
  /\ (Plugin.actions.unmuteSoundboards settings c
        (Plugin.actions.muteSoundboards settings c h).1.2).1.2
     = (Plugin.actions.unmuteSoundboards settings c h).1.2
  /\ (Plugin.actions.muteSoundboards settings c
        (Plugin.actions.unmuteSoundboards settings c h).1.2).1.2
     = (Plugin.actions.muteSoundboards settings c h).1.2.
Proof.
  split; [|split; [|split]].
  - destruct (mute_run settings c h) as (es & -> & _).
    destruct (unmute_run settings c h) as (es0 & -> & _). cbn [fst snd].
    destruct (unmute_run settings c
                ((if includeSelfInActions settings && negb (selfMute h)
                  then with_selfMute true else fun h => h)
                   (with_localMutes
                      (localMutes h ∪ user_ids (roster false c h)) h)))
      as (es' & -> & _).
    cbn [fst snd].
    destruct (includeSelfInActions settings), (selfMute h) eqn:Hself;
      unfold roster, with_selfMute, with_localMutes; simpl;
      rewrite ?Hself; simpl; by rewrite union_then_difference.
  - destruct (unmute_run settings c h) as (es & -> & _).
    destruct (mute_run settings c h) as (es0 & -> & _). cbn [fst snd].
    destruct (mute_run settings c
                ((if includeSelfInActions settings && selfMute h
                  then with_selfMute false else fun h => h)
                   (with_localMutes
                      (localMutes h ∖ user_ids (roster false c h)) h)))
      as (es' & -> & _).
    cbn [fst snd].
    destruct (includeSelfInActions settings), (selfMute h) eqn:Hself;
      unfold roster, with_selfMute, with_localMutes; simpl;
      rewrite ?Hself; simpl; by rewrite difference_then_union.
  - destruct (muteSoundboards_run settings c h) as (es & -> & _).
    destruct (unmuteSoundboards_run settings c h) as (es0 & -> & _).
    cbn [fst snd].
    destruct (unmuteSoundboards_run settings c
                (with_soundboardMutes
                   (soundboardMutes h ∪ user_ids (roster false c h)) h))
      as (es' & -> & _).
    cbn [fst snd]. unfold roster, with_soundboardMutes. simpl.
    by rewrite union_then_difference.
  - destruct (unmuteSoundboards_run settings c h) as (es & -> & _).
    destruct (muteSoundboards_run settings c h) as (es0 & -> & _).
    cbn [fst snd].
    destruct (muteSoundboards_run settings c
                (with_soundboardMutes
                   (soundboardMutes h ∖ user_ids (roster false c h)) h))
      as (es' & -> & _).
    cbn [fst snd]. unfold roster, with_soundboardMutes. simpl.
    by rewrite difference_then_union.
Qed.

(** X11.  The four local actions stay inside the client: each reads the
    channel's voice states once, as its first call, and every call after
    that is a toggle; none sends a request, logs an error or touches the
    voice channel the client is connected to.  The two soundboard
    actions change nothing but the soundboard mutes, whatever
    [includeSelfInActions] is. *)
Theorem local_actions_stay_local (settings : Settings) (c : Channel)
    (h : Host) :
  Forall
    (fun act : Settings -> Channel -> M unit =>
       (exists es, (act settings c h).2
                   = GetVoiceStatesForChannel (id c) :: es
                   /\ Forall (fun e => e <> GetVoiceStatesForChannel (id c)
                                       /\ is_local_call e = true) es)
       /\ voiceChannelId (act settings c h).1.2 = voiceChannelId h
       /\ patched (act settings c h).1.2 = patched h
       /\ voiceStates (act settings c h).1.2 = voiceStates h)
    [Plugin.actions.mute; Plugin.actions.unmute;
     Plugin.actions.muteSoundboards; Plugin.actions.unmuteSoundboards]
  /\ Forall
       (fun act : Settings -> Channel -> M unit =>
          with_soundboardMutes (soundboardMutes h) (act settings c h).1.2 = h
          /\ forall flag,
               act (with_includeSelfInActions flag settings) c h
               = act settings c h)
       [Plugin.actions.muteSoundboards; Plugin.actions.unmuteSoundboards].
Proof.
  split.
  - repeat apply Forall_cons_2; [| | | |apply Forall_nil_2].
    + destruct (mute_run settings c h) as (es & -> & Hes). cbn [fst snd].
      split; [|by destruct (includeSelfInActions settings && negb (selfMute h))].
      eexists. split; [reflexivity|].
      apply Forall_app. split.
      * apply Forall_forall. intros e He.
        by destruct (Hes e He) as (user & -> & _).
      * destruct (includeSelfInActions settings && negb (selfMute h));
          by repeat constructor.
    + destruct (unmute_run settings c h) as (es & -> & Hes). cbn [fst snd].
      split; [|by destruct (includeSelfInActions settings && selfMute h)].
      eexists. split; [reflexivity|].
      apply Forall_app. split.
      * apply Forall_forall. intros e He.
        by destruct (Hes e He) as (user & -> & _).
      * destruct (includeSelfInActions settings && selfMute h);
          by repeat constructor.
    + destruct (muteSoundboards_run settings c h) as (es & -> & Hes).
      cbn [fst snd]. split; [|done].
      eexists. split; [reflexivity|].
      apply Forall_forall. intros e He.
      by destruct (Hes e He) as (user & -> & _).
    + destruct (unmuteSoundboards_run settings c h) as (es & -> & Hes).
      cbn [fst snd]. split; [|done].
      eexists. split; [reflexivity|].
      apply Forall_forall. intros e He.
      by destruct (Hes e He) as (user & -> & _).
  - repeat apply Forall_cons_2; [| |apply Forall_nil_2].
    + split; [|intros flag; reflexivity].
      destruct (muteSoundboards_run settings c h) as (es & -> & _).
      cbn [fst snd]. by destruct h.
    + split; [|intros flag; reflexivity].
      destruct (unmuteSoundboards_run settings c h) as (es & -> & _).
      cbn [fst snd]. by destruct h.
Qed.

(** ** The menu of the second file *)

Lemma splice_before_last_sublist {A : Type} (children : list A) (item : A) :
  children `sublist_of` splice_before_last children item.
Proof.
  unfold splice_before_last.
  rewrite <- (take_drop (length children - 1) children) at 1.
  apply sublist_app; [done|]. by apply sublist_cons.
Qed.

Lemma splice_before_last_length {A : Type} (children : list A) (item : A) :
  length (splice_before_last children item) = S (length children).
Proof.
  unfold splice_before_last.
  rewrite length_app. cbn [length]. rewrite length_take, length_drop. lia.
Qed.

Lemma splice_before_last_last {A : Type} (children : list A) (item : A) :
  children <> [] ->
  last (splice_before_last children item) = last children.
Proof.
  intros Hne. unfold splice_before_last.
  destruct (exists_last Hne) as (front & x & ->).
  rewrite length_app. cbn [length].
  replace (length front + 1 - 1)%nat with (length front) by lia.
  rewrite take_app_length, drop_app_length.
  by rewrite !last_app.
Qed.

(** What the callback does when it goes through: two reads of the
    channel's voice states, then the item built from what the stores
    say, put in before the last item. *)
Lemma VoiceChannelContext_run (settings : Settings)
    (children : list MenuNode) (c : Channel) (h : Host) :
  type c = 2 \/ type c = 13 ->
  roster (includeSelfInActions settings) c h <> [] ->
  Plugin.VoiceChannelContext settings children (Some c) h
  = (splice_before_last children
       (Plugin.voice_tools c
          (filter (fun c' => id c' <> id c)
                  (map entry_channel (default [] (vocal h !! guild_id c))))
          (bool_decide (0 < length (roster false c h))%nat)
          (can h MOVE_MEMBERS (id c)) (can h MUTE_MEMBERS (id c))
          (can h DEAFEN_MEMBERS (id c))),
     h,
     [GetVoiceStatesForChannel (id c); GetVoiceStatesForChannel (id c)]).
Proof.
  intros Hkind Hcount. unfold Plugin.VoiceChannelContext.
  assert (negb (type c =? 2) && negb (type c =? 13) = false) as ->.
  { destruct (Z.eqb_spec (type c) 2), (Z.eqb_spec (type c) 13);
      simpl; tauto. }
  unfold mbind, M_bind. rewrite !getVoiceStates_run.
  destruct (roster (includeSelfInActions settings) c h) as [|s0 l];
    [done|reflexivity].
Qed.

(** X12.  The soundboard items of the menu follow the members other than
    the invoking user, not the members that count for showing the menu:
    whenever the menu is extended, "Client actions" holds the two
    local-mute items, and the two soundboard items exactly when some
    present member is not the invoking user. *)
Theorem soundboard_items_need_others (settings : Settings)
    (children : list MenuNode) (c : Channel) (h : Host) :
  type c = 2 \/ type c = 13 ->
  roster (includeSelfInActions settings) c h <> [] ->
  exists item,
    (Plugin.VoiceChannelContext settings children (Some c) h).1.1
    = splice_before_last children item
    /\ group_items "Client actions" item
       = ["voice-tools-mute-all"; "voice-tools-unmute-all"]%string
         ++ when (bool_decide (roster false c h <> []))
              ["voice-tools-soundboard-sound-mute-all";
               "voice-tools-soundboard-sound-unmute-all"]%string.
Proof.
  intros Hkind Hcount.
  rewrite (VoiceChannelContext_run settings children c h Hkind Hcount).
  eexists. split; [reflexivity|].
  destruct (roster false c h) as [|s0 l]; simpl;
    by destruct (can h MUTE_MEMBERS (id c)), (can h DEAFEN_MEMBERS (id c)),
         (can h MOVE_MEMBERS (id c)).
Qed.

(** Alone in the lobby with [includeSelfInActions] set, [A] gets the two
    local-mute items and no soundboard items. *)
Lemma soundboard_items_need_others_witness :
  let settings := with_includeSelfInActions true default_settings in
  let h := client "A" (Some "100"%string) ["A"]%string
             (fun _ _ => true) accepts in
  exists item,
    (Plugin.VoiceChannelContext settings [] (Some lobby) h).1.1 = [item]
    /\ group_items "Client actions" item
       = ["voice-tools-mute-all"; "voice-tools-unmute-all"]%string.
Proof.
  intros settings h.
  destruct (soundboard_items_need_others settings [] lobby h)
    as (item & Hresult & Hitems).
  - left. reflexivity.
  - vm_compute. discriminate.
  - exists item. split; [exact Hresult|]. rewrite Hitems. reflexivity.
Defined.

(** X13.  The destinations under "Move all", for a user who may move
    members: one item per voice or stage channel of the guild that the
    store lists, in the store's order, except the channel the menu is
    for; each carries the destination's id and name and calls
    [actions.moveTo(channel, destination)].  The channel itself is never
    offered. *)
Theorem move_all_destinations (settings : Settings)
    (children : list MenuNode) (c : Channel) (h : Host) :
  type c = 2 \/ type c = 13 ->
  roster (includeSelfInActions settings) c h <> [] ->
  can h MOVE_MEMBERS (id c) = true ->
  exists item,
    (Plugin.VoiceChannelContext settings children (Some c) h).1.1
    = splice_before_last children item
    /\ children_of "voice-tools-move-all"
         (group_nodes "Server actions" item)
       = (fun destination =>
            MenuItem (id destination) (name destination) false
              (Some (Call "moveTo" c (Some destination))) [])
           <$> filter (fun c' => id c' <> id c)
                 (entry_channel <$> default [] (vocal h !! guild_id c))
    /\ Forall (fun node => node_id node <> Some (id c))
         (children_of "voice-tools-move-all"
            (group_nodes "Server actions" item)).
Proof.
  intros Hkind Hcount Hmove.
  rewrite (VoiceChannelContext_run settings children c h Hkind Hcount).
  eexists. split; [reflexivity|].
  assert (children_of "voice-tools-move-all"
            (group_nodes "Server actions"
               (Plugin.voice_tools c
                  (filter (fun c' => id c' <> id c)
                     (map entry_channel (default [] (vocal h !! guild_id c))))
                  (bool_decide (0 < length (roster false c h))%nat)
                  (can h MOVE_MEMBERS (id c)) (can h MUTE_MEMBERS (id c))
                  (can h DEAFEN_MEMBERS (id c))))
          = (fun destination =>
               MenuItem (id destination) (name destination) false
                 (Some (Call "moveTo" c (Some destination))) [])
              <$> filter (fun c' => id c' <> id c)
                    (entry_channel <$> default [] (vocal h !! guild_id c)))
    as ->.
  { rewrite Hmove.
    destruct (can h MUTE_MEMBERS (id c)), (can h DEAFEN_MEMBERS (id c));
      simpl; unfold children_of; simpl; by rewrite ?app_nil_r. }
  split; [done|].
  apply Forall_fmap, Forall_forall. intros destination Hd.
  apply list_elem_of_filter in Hd as [Hne _]. simpl. by intros [= Heq].
Qed.

(** From the lobby the only destination is the stage. *)
Lemma move_all_destinations_witness :
  let h := client "A" (Some "100"%string) ["A"; "B"]%string
             (fun _ _ => true) accepts in
  exists item,
    (Plugin.VoiceChannelContext default_settings [] (Some lobby) h).1.1
    = [item]
    /\ children_of "voice-tools-move-all" (group_nodes "Server actions" item)
       = [MenuItem "200" "Stage" false
            (Some (Call "moveTo" lobby (Some stage))) []].
Proof.
  intros h.
  destruct (move_all_destinations default_settings [] lobby h)
    as (item & Hresult & Hitems & _).
  - left. reflexivity.
  - vm_compute. discriminate.
  - reflexivity.
  - exists item. split; [exact Hresult|]. rewrite Hitems. reflexivity.
Defined.

(** X14.  The callback only queries the stores: whatever the channel
    and the stores are, it leaves the client as it is and makes no call
    that acts (no toggle, no request, no log, no direct call on the
    voice channel), and the voice states it reads are those of the
    channel; the menu keeps every item it had, in order, and gains at
    most one; and when one is put into a menu that was not empty, the
    last item stays the last. *)
Theorem VoiceChannelContext_only_reads (settings : Settings)
    (children : list MenuNode) (channel : option Channel) (h : Host) :
  let result := (Plugin.VoiceChannelContext settings children channel h).1.1 in
  (Plugin.VoiceChannelContext settings children channel h).1.2 = h
  /\ Forall (fun e => acts e = false
                       /\ forall channelId,
                            e = GetVoiceStatesForChannel channelId ->
                            exists c, channel = Some c /\ channelId = id c)
       (Plugin.VoiceChannelContext settings children channel h).2
  /\ children `sublist_of` result
  /\ (length result <= S (length children))%nat
  /\ (children <> [] -> last result = last children).
Proof.
  cbv zeta.
  destruct channel as [c|].
  2: { simpl. split; [done|]. split; [constructor|].
       split; [done|]. split; [lia|done]. }
  destruct (decide ((type c = 2 \/ type c = 13)
                    /\ roster (includeSelfInActions settings) c h <> []))
    as [[Hkind Hcount]|Hskip].
  - rewrite (VoiceChannelContext_run settings children c h Hkind Hcount).
    cbn [fst snd]. split; [done|].
    split; [repeat constructor; intros ? [= <-]; by exists c|].
    split; [apply splice_before_last_sublist|].
    split; [by rewrite splice_before_last_length|].
    apply splice_before_last_last.
  - unfold Plugin.VoiceChannelContext.
    destruct (negb (type c =? 2) && negb (type c =? 13)) eqn:Hk.
    { simpl. split; [done|]. split; [constructor|].
      split; [done|]. split; [lia|done]. }
    unfold mbind, M_bind. rewrite !getVoiceStates_run.
    destruct (roster (includeSelfInActions settings) c h) as [|s0 l] eqn:Hr.
    + cbn [fst snd length bool_decide]. simpl.
      split; [done|]. split; [repeat constructor; intros ? [= <-]; by exists c|].
      split; [done|]. split; [lia|done].
    + destruct Hskip. split; [|done].
      destruct (Z.eqb_spec (type c) 2), (Z.eqb_spec (type c) 13);
        simpl in Hk; try discriminate; tauto.
Qed.

(** With [B] in the lobby the item goes in before the one item of the
    menu, which stays the last. *)
Lemma VoiceChannelContext_only_reads_witness :
  let h := client "A" None ["A"; "B"]%string (fun _ _ => true) accepts in
  let copy := MenuItem "copy-id" "Copy Channel ID" false None [] in
  last (Plugin.VoiceChannelContext default_settings [copy] (Some lobby) h).1.1
  = Some copy.
Proof.
  intros h copy.
  destruct (VoiceChannelContext_only_reads default_settings [copy]
              (Some lobby) h) as (_ & _ & _ & _ & Hlast).
  rewrite Hlast; [reflexivity|discriminate].
Defined.

(** ** The menus and the [actions] tables *)

Lemma menu_calls_destinations (key : string) (c : Channel)
    (voiceChannels : list Channel) :
  concat (List.map menu_calls
            (map (fun voiceChannel =>
                    MenuItem (id voiceChannel) (name voiceChannel) false
                      (Some (Call key c (Some voiceChannel))) [])
                 voiceChannels))
  = (fun voiceChannel => Call key c (Some voiceChannel)) <$> voiceChannels.
Proof.
  induction voiceChannels as [|v vs IH]; [done|].
  simpl. by rewrite IH.
Qed.

(** The [action] closures of the item of the second file. *)
Lemma Plugin_menu_calls (c : Channel) (voiceChannels : list Channel)
    (hasOtherUsers movePermission mutePermission deafPermission : bool) :
  menu_calls
    (Plugin.voice_tools c voiceChannels hasOtherUsers movePermission
       mutePermission deafPermission)
  = [Call "mute" c None; Call "unmute" c None]
    ++ when hasOtherUsers
         [Call "muteSoundboards" c None; Call "unmuteSoundboards" c None]
    ++ when mutePermission
         [Call "serverMute" c None; Call "serverUnmute" c None]
    ++ when deafPermission
         [Call "serverDeafen" c None; Call "serverUndeafen" c None]
    ++ when movePermission
         (Call "disconnect" c None
            :: ((fun voiceChannel => Call "moveTo" c (Some voiceChannel))
                  <$> voiceChannels)).
Proof.
  destruct hasOtherUsers, movePermission, mutePermission, deafPermission;
    simpl; rewrite ?menu_calls_destinations, ?app_nil_r; reflexivity.
Qed.

(** The [action] closures of the item of [index.tsx]. *)
Lemma IndexTsx_menu_calls (c : Channel) (voiceChannels : list Channel)
    (movePermission mutePermission deafPermission : bool) :
  menu_calls
    (IndexTsx.voice_tools c voiceChannels movePermission mutePermission
       deafPermission)
  = when mutePermission [Call "mute" c None; Call "unmute" c None]
    ++ when deafPermission [Call "deafen" c None; Call "undeafen" c None]
    ++ when movePermission
         (Call "disconnect" c None
            :: ((fun voiceChannel => Call "move" c (Some voiceChannel))
                  <$> voiceChannels)).
Proof.
  destruct movePermission, mutePermission, deafPermission;
    simpl; rewrite ?menu_calls_destinations, ?app_nil_r; reflexivity.
Qed.

(** X15.  In the second file every item of the menu calls an entry that
    the [actions] table has, and the destinations under "Move all" pass
    the [newChannel] that [moveTo] reads, whatever the channel, the
    destinations and the four conditions are; with everything shown and
    a destination to move to, every entry of the table is called by some
    item. *)
Theorem Plugin_menu_calls_are_defined (c : Channel)
    (voiceChannels : list Channel)
    (hasOtherUsers movePermission mutePermission deafPermission : bool) :
  Forall (fun call => callable Plugin_actions call = true)
    (menu_calls
       (Plugin.voice_tools c voiceChannels hasOtherUsers movePermission
          mutePermission deafPermission))
  /\ (voiceChannels <> [] ->
      forall key,
        is_Some (Plugin_actions !! key) ->
        key ∈ call_key
                <$> menu_calls
                      (Plugin.voice_tools c voiceChannels true true true
                         true)).
Proof.
  split.
  - rewrite Plugin_menu_calls.
    repeat (apply Forall_app; split).
    + by repeat constructor.
    + destruct hasOtherUsers; by repeat constructor.
    + destruct mutePermission; by repeat constructor.
    + destruct deafPermission; by repeat constructor.
    + destruct movePermission; [|constructor].
      constructor; [done|].
      apply Forall_fmap, Forall_forall. by intros v _.
  - intros Hne key [handler Hkey].
    rewrite Plugin_menu_calls.
    destruct voiceChannels as [|v vs]; [done|].
    apply elem_of_list_to_map_2 in Hkey.
    simpl.
    repeat (apply elem_of_cons in Hkey as [[= -> _]|Hkey];
            [repeat first [apply list_elem_of_here
                          |apply list_elem_of_further]|]).
    by apply elem_of_nil in Hkey.
Qed.

(** With the stage as a destination, [moveTo] is among the keys the
    items of the lobby's menu call. *)
Lemma Plugin_menu_calls_are_defined_witness :
  "moveTo"%string
    ∈ call_key <$> menu_calls
                     (Plugin.voice_tools lobby [stage] true true true true).
Proof.
  destruct (Plugin_menu_calls_are_defined lobby [stage] true true true true)
    as [_ Hkeys].
  apply Hkeys; [discriminate|].
  eexists. vm_compute. reflexivity.
Defined.

(** ** [index.tsx] beside the second file *)

(** X16.  In [index.tsx] the items of the menu call [actions.mute],
    [actions.unmute], [actions.deafen], [actions.undeafen] and
    [actions.move], none of which its [actions] table has: of all the
    items only "Disconnect all" calls an entry that is there, and the
    entries [serverMute], [serverUnmute], [serverDeafen],
    [serverUndeafen] and [moveTo] are called by no item. *)
Theorem IndexTsx_menu_calls_missing_entries (c : Channel)
    (voiceChannels : list Channel)
    (movePermission mutePermission deafPermission : bool) :
  let calls :=
    menu_calls
      (IndexTsx.voice_tools c voiceChannels movePermission mutePermission
         deafPermission) in
  filter (fun call => callable IndexTsx_actions call = true) calls
  = when movePermission [Call "disconnect" c None]
  /\ Forall (fun call => call_key call <> "disconnect"%string ->
                         IndexTsx_actions !! call_key call = None) calls
  /\ Forall (fun call => is_Some (IndexTsx_actions !! call_key call) ->
                         call_key call = "disconnect"%string) calls.
Proof.
  cbv zeta. rewrite IndexTsx_menu_calls.
  assert (forall vs : list Channel,
            filter (fun call => callable IndexTsx_actions call = true)
              ((fun voiceChannel => Call "move" c (Some voiceChannel)) <$> vs)
            = []) as Hmove.
  { intros vs. apply filter_none. intros call Hcall.
    apply list_elem_of_fmap in Hcall as (v & -> & _). by vm_compute. }
  assert (forall vs : list Channel,
            Forall (fun call => IndexTsx_actions !! call_key call = None)
              ((fun voiceChannel => Call "move" c (Some voiceChannel)) <$> vs))
    as Hnone.
  { intros vs. apply Forall_fmap, Forall_forall. by intros v _. }
  split; [|split].
  - rewrite !filter_app.
    destruct movePermission, mutePermission, deafPermission; simpl;
      rewrite ?filter_cons_False by (by vm_compute);
      rewrite ?(filter_cons_True
                  (fun call => callable IndexTsx_actions call = true))
        by (by vm_compute);
      rewrite ?filter_cons_False by (by vm_compute);
      by rewrite ?Hmove.
  - repeat (apply Forall_app; split).
    + destruct mutePermission; by repeat constructor.
    + destruct deafPermission; by repeat constructor.
    + destruct movePermission; [|constructor].
      constructor; [done|].
      eapply Forall_impl; [apply Hnone|]. by intros call ? _.
  - repeat (apply Forall_app; split).
    + destruct mutePermission; repeat constructor; by intros [? [=]].
    + destruct deafPermission; repeat constructor; by intros [? [=]].
    + destruct movePermission; [|constructor].
      constructor; [done|].
      eapply Forall_impl; [apply Hnone|].
      intros call -> [? [=]].
Qed.

(** The menu of the lobby with the stage as a destination: the key
    [mute] of its first item is not in the table. *)
Lemma IndexTsx_menu_calls_missing_entries_witness :
  IndexTsx_actions !! "mute"%string = None.
Proof.
  destruct (IndexTsx_menu_calls_missing_entries lobby [stage] true true true)
    as (_ & Hmissing & _).
  cbv zeta in Hmissing. rewrite IndexTsx_menu_calls in Hmissing.
  apply Forall_cons in Hmissing as [Hmute _].
  apply Hmute. discriminate.
Defined.

(** X17.  The dispatcher of [index.tsx] is the dispatcher of the second
    file: for every channel, body, flag and client both do the same,
    step for step, and so do the two [disconnect] and the two [moveTo];
    the four server actions of [index.tsx] are those of the second file
    with [includeSelfInActions] off. *)
Theorem IndexTsx_sendPatch_same (settings : Settings)
    (idle : Suspension -> Host -> Host) (c newChannel : Channel)
    (body : list (string * JsValue)) (bypass : bool) (h : Host) :
  IndexTsx.sendPatch settings idle c body bypass h
  = Plugin.sendPatch settings idle c body bypass h
  /\ IndexTsx.actions.disconnect settings idle c h
     = Plugin.actions.disconnect settings idle c h
  /\ IndexTsx.actions.moveTo settings idle c newChannel h
     = Plugin.actions.moveTo settings idle c newChannel h
  /\ Forall
       (fun '(old, new) =>
          old settings idle c h
          = new (with_includeSelfInActions false settings) idle c h)
       [(IndexTsx.actions.serverMute, Plugin.actions.serverMute);
        (IndexTsx.actions.serverUnmute, Plugin.actions.serverUnmute);
        (IndexTsx.actions.serverDeafen, Plugin.actions.serverDeafen);
        (IndexTsx.actions.serverUndeafen, Plugin.actions.serverUndeafen)].
Proof.
  assert (forall settings' body' bypass' h',
            IndexTsx.sendPatch settings' idle c body' bypass' h'
            = Plugin.sendPatch settings' idle c body' bypass' h') as Hsame
    by reflexivity.
  split; [apply Hsame|].
  split.
  { unfold IndexTsx.actions.disconnect, Plugin.actions.disconnect, and_then.
    destruct (decide (voiceChannelId h = Some (id c))) as [Hin|Hout];
      unfold mbind, M_bind, SelectedChannelStore.getVoiceChannelId, gets;
      [rewrite decide_True by done|rewrite decide_False by done];
      simpl; by rewrite Hsame. }
  split.
  { unfold IndexTsx.actions.moveTo, Plugin.actions.moveTo, and_then.
    destruct (decide (voiceChannelId h = Some (id c))) as [Hin|Hout];
      unfold mbind, M_bind, SelectedChannelStore.getVoiceChannelId, gets;
      [rewrite decide_True by done|rewrite decide_False by done];
      simpl; by rewrite Hsame. }
  repeat constructor;
    unfold IndexTsx.actions.serverMute, IndexTsx.actions.serverUnmute,
      IndexTsx.actions.serverDeafen, IndexTsx.actions.serverUndeafen;
    rewrite Hsame; reflexivity.
Qed.

Lemma splice_before_last_changes {A : Type} (children : list A) (item : A) :
  splice_before_last children item <> children.
Proof.
  intros Heq. apply (f_equal length) in Heq.
  rewrite splice_before_last_length in Heq. lia.
Qed.

Lemma roster_nil (includeSelf : bool) (c : Channel) (h : Host) :
  roster includeSelf c h = []
  <-> Forall (fun state => includeSelf = false /\ userId state = currentUser h)
        (Object_values (default [] (voiceStates h !! id c))).
Proof.
  unfold roster.
  induction (Object_values (default [] (voiceStates h !! id c)))
    as [|s l IH]; [done|].
  rewrite filter_cons, Forall_cons.
  destruct (decide (includeSelf = true \/ userId s <> currentUser h))
    as [Hin|Hout].
  - split; [done|]. intros [[-> Hme] _]. by destruct Hin.
  - rewrite IH. split; [|by intros [_ ?]]. intros Hl. split; [|done].
    destruct includeSelf; [tauto|]. split; [done|].
    destruct (decide (userId s = currentUser h)); tauto.
Qed.

(** X18.  Where the two files show the menu.  The second file extends
    the menu only where [index.tsx] does; [index.tsx] extends it and the
    second file does not exactly when the channel is a voice or stage
    channel whose only voice states are the invoking user's and
    [includeSelfInActions] is off. *)
Theorem menus_shown_compared (settings : Settings)
    (children : list MenuNode) (c : Channel) (h : Host) :
  let old := (IndexTsx.VoiceChannelContext children (Some c) h).1.1 in
  let new := (Plugin.VoiceChannelContext settings children (Some c) h).1.1 in
  let states := Object_values (default [] (voiceStates h !! id c)) in
  (new <> children -> old <> children)
  /\ ((old <> children /\ new = children)
      <-> ((type c = 2 \/ type c = 13)
           /\ includeSelfInActions settings = false
           /\ states <> []
           /\ Forall (fun state => userId state = currentUser h) states)).
Proof.
  intros old new states.
  assert (states = [] <-> default [] (voiceStates h !! id c) = []) as Hstates.
  { unfold states, Object_values.
    by destruct (default [] (voiceStates h !! id c)). }
  assert (old <> children
          <-> (type c = 2 \/ type c = 13) /\ states <> []) as Hold.
  { pose proof (IndexTsx_VoiceChannelContext_gating children (Some c) h)
      as Hg. lazy beta iota zeta in Hg. fold old in Hg. rewrite Hstates.
    destruct (decide ((type c = 2 \/ type c = 13)
                      /\ default [] (voiceStates h !! id c) <> []))
      as [Hyes|Hno].
    - destruct Hg as (item & -> & _).
      split; [done|]. intros _. apply splice_before_last_changes.
    - rewrite Hg. tauto. }
  assert ((new <> children
           <-> (type c = 2 \/ type c = 13)
               /\ roster (includeSelfInActions settings) c h <> [])
          /\ (new = children
              <-> ~ ((type c = 2 \/ type c = 13)
                     /\ roster (includeSelfInActions settings) c h <> [])))
    as [Hnew Hsame].
  { pose proof (VoiceChannelContext_gating settings children (Some c) h)
      as Hg. lazy beta iota zeta in Hg. fold new in Hg.
    destruct (decide ((type c = 2 \/ type c = 13)
                      /\ roster (includeSelfInActions settings) c h <> []))
      as [Hyes|Hno].
    - destruct Hg as (item & -> & _).
      pose proof (splice_before_last_changes children item). tauto.
    - rewrite Hg. tauto. }
  assert (roster (includeSelfInActions settings) c h <> [] -> states <> [])
    as Hsome.
  { intros Hr Hs. apply Hr. apply roster_nil. fold states. by rewrite Hs. }
  split; [rewrite Hnew, Hold; tauto|].
  rewrite Hsame, Hold.
  pose proof (roster_nil (includeSelfInActions settings) c h) as Hnil.
  fold states in Hnil.
  destruct (decide (roster (includeSelfInActions settings) c h = []))
    as [Hr|Hr].
  - pose proof (proj1 Hnil Hr) as Hall.
    split.
    + intros [[Hkind Hne] _]. split; [done|].
      destruct states as [|s l]; [done|].
      split; [by apply Forall_cons in Hall as [[? _] _]|].
      split; [done|]. eapply Forall_impl; [exact Hall|]. by intros ? [_ ?].
    + intros (Hkind & _ & Hne & _). split; [done|]. tauto.
  - split; [tauto|].
    intros (_ & Hflag & _ & Hall). destruct Hr. apply Hnil.
    eapply Forall_impl; [exact Hall|]. by intros.
Qed.

(** [A] alone in the lobby, [includeSelfInActions] off: [index.tsx]
    shows the menu, the second file does not. *)
Lemma menus_shown_compared_witness :
  let h := client "A" (Some "100"%string) ["A"]%string
             (fun _ _ => true) accepts in
  (IndexTsx.VoiceChannelContext [] (Some lobby) h).1.1 <> []
  /\ (Plugin.VoiceChannelContext default_settings [] (Some lobby) h).1.1 = [].
Proof.
  intros h.
  apply (proj2 (menus_shown_compared default_settings [] lobby h)).
  split; [left; reflexivity|]. split; [reflexivity|].
  split; [discriminate|]. by repeat constructor.
Defined.

(** ** Batches that meet a refusal, and who is in a batch *)

(** X19.  A batch whose first request the service refuses: that one
    request goes out and nothing more, no pause is made (the pause that
    follows the first request of a batch comes only after its result),
    the error is logged with the message
    "VoiceChatUtilities failed to run", and the promise that is left is
    fulfilled. *)
Theorem first_refusal_ends_batch (settings : Settings)
    (idle : Suspension -> Host -> Host) (c : Channel)
    (patch : list (string * JsValue)) (includeSelf : bool) (h : Host)
    (first : VoiceState) (rest : list VoiceState) (e : JsError) :
  roster includeSelf c h = first :: rest ->
  answer h (patched h) (request_for c patch (userId first)) = Rejected e ->
  let request := request_for c patch (userId first) in
  Plugin.sendPatch settings idle c patch includeSelf h
  = (Fulfilled None,
     idle (AwaitPromise 0) (with_patched (patched h ++ [request]) h),
     [Effect (GetVoiceStatesForChannel (id c)); Started 0;
      Effect (RestPatch request); Threw 0 e;
      Effect (ConsoleError "VoiceChatUtilities failed to run" e)]).
Proof.
  intros Hroster Hanswer request.
  unfold Plugin.sendPatch, and_then. rewrite getVoiceStates_run, Hroster.
  unfold runSequential, Plugin.patch_producers. cbn [map loop].
  unfold RestAPI.patch at 1.
  change {| url := Plugin.member_url c first; body := patch |}
    with request.
  fold request in Hanswer. rewrite Hanswer. reflexivity.
Qed.

Lemma first_refusal_ends_batch_witness :
  let h := client "A" None ["A"; "B"; "C"]%string (fun _ _ => true) refuses in
  requests (Plugin.sendPatch default_settings undisturbed lobby
              [("mute"%string, JBool true)] false h).2
  = [request_for lobby [("mute"%string, JBool true)] "B"]
  /\ sleeps (Plugin.sendPatch default_settings undisturbed lobby
               [("mute"%string, JBool true)] false h).2 = [].
Proof.
  intros h.
  rewrite (first_refusal_ends_batch default_settings undisturbed lobby
             [("mute"%string, JBool true)] false h
             (present "B" lobby).2 [(present "C" lobby).2] "403"
             ltac:(reflexivity) ltac:(reflexivity)).
  split; reflexivity.
Defined.

(** X20.  Who a server action sends a request for.  With
    [includeSelfInActions] off, no step of [serverMute], [serverUnmute],
    [serverDeafen] or [serverUndeafen] acts on the invoking user; with it
    on, a batch that goes through holds a request for the invoking user
    whenever they have a voice state in the channel. *)
Theorem server_actions_and_self (settings : Settings)
    (idle : Suspension -> Host -> Host) (c : Channel) (h : Host) :
  Forall
    (fun '(act, body) =>
       (includeSelfInActions settings = false ->
        filter (affects c (currentUser h)) (act settings idle c h).2 = [])
       /\ (includeSelfInActions settings = true ->
           forall rs,
             (act settings idle c h).1.1 = Fulfilled (Some rs) ->
             currentUser h
               ∈ userId <$> Object_values
                              (default [] (voiceStates h !! id c)) ->
             request_for c body (currentUser h)
               ∈ requests (act settings idle c h).2))
    [(Plugin.actions.serverMute, [("mute"%string, JBool true)]);
     (Plugin.actions.serverUnmute, [("mute"%string, JBool false)]);
     (Plugin.actions.serverDeafen, [("deaf"%string, JBool true)]);
     (Plugin.actions.serverUndeafen, [("deaf"%string, JBool false)])].
Proof.
  assert (forall body,
            (includeSelfInActions settings = false ->
             filter (affects c (currentUser h))
               (Plugin.sendPatch settings idle c body
                  (includeSelfInActions settings) h).2 = [])
            /\ (includeSelfInActions settings = true ->
                forall rs,
                  (Plugin.sendPatch settings idle c body
                     (includeSelfInActions settings) h).1.1
                  = Fulfilled (Some rs) ->
                  currentUser h
                    ∈ userId <$> Object_values
                                   (default [] (voiceStates h !! id c)) ->
                  request_for c body (currentUser h)
                    ∈ requests (Plugin.sendPatch settings idle c body
                                  (includeSelfInActions settings) h).2))
    as Hbody.
  { intros body.
    destruct (Plugin.sendPatch settings idle c body
                (includeSelfInActions settings) h) as [[out h'] tr] eqn:Hsend.
    cbn [fst snd]. split.
    - intros Hflag. rewrite Hflag in Hsend.
      exact (sendPatch_spares_self _ _ _ _ _ _ _ _ Hsend).
    - intros Hflag rs -> Hme. rewrite Hflag in Hsend.
      destruct (sendPatch_batch _ _ _ _ _ _ _ _ _ Hsend) as [_ Hall].
      rewrite (Hall rs eq_refl).
      apply list_elem_of_fmap. exists (currentUser h). split; [done|].
      unfold roster.
      apply list_elem_of_fmap in Hme as (state & Hid & Hstate).
      apply list_elem_of_fmap. exists state. split; [done|].
      apply list_elem_of_filter. split; [by left|done]. }
  repeat constructor; apply Hbody.
Qed.

(** [A] with [includeSelfInActions] set, in the lobby with [B] and [C]:
    [serverMute] sends a request for [A]. *)
Lemma server_actions_and_self_witness :
  let settings := with_includeSelfInActions true default_settings in
  let h := client "A" None ["A"; "B"; "C"]%string (fun _ _ => true) accepts in
  request_for lobby [("mute"%string, JBool true)] "A"
    ∈ requests (Plugin.actions.serverMute settings undisturbed lobby h).2.
Proof.
  intros settings h.
  pose proof (server_actions_and_self settings undisturbed lobby h) as Hall.
  apply Forall_cons in Hall as [[_ Hself] _].
  destruct (Plugin.actions.serverMute settings undisturbed lobby h)
    as [[out h'] tr] eqn:Hrun.
  assert (exists rs, out = Fulfilled (Some rs)) as [rs Hout].
  { vm_compute in Hrun. inversion Hrun. eauto. }
  apply (Hself eq_refl rs).
  - cbn [fst]. exact Hout.
  - vm_compute. apply list_elem_of_here.
Defined.
